(** * Handwriting SVG generator: stroke processing, font data and line layout

    A shallow embedding of [js/stroke-processor.js], [js/font-data.js] and
    the layout part of [js/text-renderer.js], with the properties stated in
    the specification proved (or refuted) against it.

    Numbers.  A JavaScript number is modelled as an exact rational or one of
    the three special values [NaN], [+Infinity], [-Infinity].  Arithmetic is
    exact: IEEE rounding and the sign of zero are outside the model.
    [Math.hypot], [Math.cos], [Math.sin], [Number.prototype.toFixed] and
    [JSON.parse] are built-ins of the host, taken as parameters. *)

From Stdlib Require Import QArith Qminmax Lqa.
From stdpp Require Import gmap strings list pretty.

Local Open Scope Q_scope.

(** ** JavaScript numbers *)

Inductive num : Type :=
  | NaN
  | NegInf
  | Fin (q : Q)
  | PosInf.

Module JS.

Definition Qsign (q : Q) : comparison := q ?= 0.

Definition inf_of_sign (c : comparison) : num :=
  match c with
  | Gt => PosInf
  | Lt => NegInf
  | Eq => NaN
  end.

Definition sign_mul (a b : comparison) : comparison :=
  match a, b with
  | Eq, _ | _, Eq => Eq
  | Gt, Gt | Lt, Lt => Gt
  | _, _ => Lt
  end.

Definition neg (a : num) : num :=
  match a with
  | NaN => NaN
  | NegInf => PosInf
  | Fin q => Fin (- q)
  | PosInf => NegInf
  end.

Definition add (a b : num) : num :=
  match a, b with
  | NaN, _ | _, NaN => NaN
  | Fin p, Fin q => Fin (p + q)
  | PosInf, NegInf | NegInf, PosInf => NaN
  | PosInf, _ | _, PosInf => PosInf
  | NegInf, _ | _, NegInf => NegInf
  end.

Definition sub (a b : num) : num := add a (neg b).

Definition mul (a b : num) : num :=
  match a, b with
  | NaN, _ | _, NaN => NaN
  | Fin p, Fin q => Fin (p * q)
  | PosInf, Fin q | Fin q, PosInf => inf_of_sign (Qsign q)
  | NegInf, Fin q | Fin q, NegInf => inf_of_sign (sign_mul Lt (Qsign q))
  | PosInf, PosInf | NegInf, NegInf => PosInf
  | PosInf, NegInf | NegInf, PosInf => NegInf
  end.

(** Division by zero gives an infinity of the sign of the dividend (the
    zero divisor is taken as [+0]) and [0/0] is [NaN]. *)
Definition div (a b : num) : num :=
  match a, b with
  | NaN, _ | _, NaN => NaN
  | Fin p, Fin q =>
      if Qeq_bool q 0 then inf_of_sign (Qsign p) else Fin (p / q)
  | Fin _, (PosInf | NegInf) => Fin 0
  | PosInf, Fin q => match Qsign q with Lt => NegInf | _ => PosInf end
  | NegInf, Fin q => match Qsign q with Lt => PosInf | _ => NegInf end
  | (PosInf | NegInf), (PosInf | NegInf) => NaN
  end.

(** Comparison; [None] when an operand is [NaN]. *)
Definition compare (a b : num) : option comparison :=
  match a, b with
  | NaN, _ | _, NaN => None
  | Fin p, Fin q => Some (p ?= q)
  | NegInf, NegInf | PosInf, PosInf => Some Eq
  | NegInf, _ | _, PosInf => Some Lt
  | PosInf, _ | _, NegInf => Some Gt
  end.

(** [a > b], [a < b], [a >= b], [a <= b], [a === b] *)
Definition gt (a b : num) : bool :=
  match compare a b with Some Gt => true | _ => false end.
Definition lt (a b : num) : bool :=
  match compare a b with Some Lt => true | _ => false end.
Definition ge (a b : num) : bool :=
  match compare a b with Some (Gt | Eq) => true | _ => false end.
Definition le (a b : num) : bool :=
  match compare a b with Some (Lt | Eq) => true | _ => false end.
Definition eqb (a b : num) : bool :=
  match compare a b with Some Eq => true | _ => false end.

(** [Math.min(a, b)], [Math.max(a, b)] *)
Definition min (a b : num) : num :=
  match compare a b with
  | None => NaN
  | Some Gt => b
  | Some _ => a
  end.
Definition max (a b : num) : num :=
  match compare a b with
  | None => NaN
  | Some Lt => b
  | Some _ => a
  end.

(** Truthiness of a number: [0] and [NaN] are falsy. *)
Definition truthy (a : num) : bool :=
  match a with
  | NaN => false
  | Fin q => negb (Qeq_bool q 0)
  | _ => true
  end.

(** [a || b] on numbers *)
Definition or (a b : num) : num := if truthy a then a else b.

(** [o || b] where [o] is a property that may be absent ([undefined]) *)
Definition or_undef (o : option num) (b : num) : num :=
  match o with
  | Some a => or a b
  | None => b
  end.

(** [o ?? b] *)
Definition nullish (o : option num) (b : num) : num :=
  match o with
  | Some a => a
  | None => b
  end.

(** An absent property used in arithmetic is [NaN]. *)
Definition to_number (o : option num) : num := nullish o NaN.

(** Equality of values, rationals compared by [Qeq]; [NaN] equals nothing. *)
Definition same (a b : num) : Prop :=
  match a, b with
  | Fin p, Fin q => p == q
  | PosInf, PosInf | NegInf, NegInf => True
  | _, _ => False
  end.

Definition finite (a : num) : Prop :=
  match a with Fin _ => True | _ => False end.

(** [Math.PI], the double nearest to pi, as an exact fraction *)
Definition PI : num := Fin (884279719003555 # 281474976710656).

End JS.

(** The host's numeric built-ins. *)
Class MathLib : Type := {
  Math_hypot : num -> num -> num;
  Math_cos : num -> num;
  Math_sin : num -> num;
}.

(** What the proofs need of them: [Math.cos(0) = 1], [Math.sin(0) = 0]. *)
Class MathLibLaws (M : MathLib) : Prop := {
  Math_cos_0 : forall q, q == 0 -> JS.same (Math_cos (Fin q)) (Fin 1);
  Math_sin_0 : forall q, q == 0 -> JS.same (Math_sin (Fin q)) (Fin 0);
}.

(** ** Data model *)

Module Point.
Record t : Type := mk {
  x : num;
  y : num;
  pressure : option num;
  timestamp : option num;
}.
End Point.

Record Stroke : Type := mkStroke { points : list Point.t }.

Record Bounds : Type := mkBounds {
  minX : num; minY : num; maxX : num; maxY : num;
  width : num; height : num;
}.

Record Metrics : Type := mkMetrics {
  ascender : option num;
  xHeight : option num;
  baseline : option num;
  descender : option num;
  emHeight : option num;
  captureWidth : option num;
}.

Record Point2D : Type := mkPoint2D { x2 : num; y2 : num }.

Record Connector : Type := mkConnector {
  entry : Point2D;
  exit : Point2D;
  cwidth : num;
}.

(** ** js/stroke-processor.js *)

Module StrokeProcessor.
Section WithMath.
Context {M : MathLib}.

(** [normalize(strokes, bounds, metrics)] *)
Definition normalize_point (originX originY scale : num) (point : Point.t)
  : Point.t :=
  {| Point.x := JS.div (JS.sub (Point.x point) originX) scale;
     Point.y := JS.div (JS.sub (Point.y point) originY) scale;
     Point.pressure := Some (JS.or_undef (Point.pressure point) (Fin 0.5));
     Point.timestamp := Some (JS.or_undef (Point.timestamp point) (Fin 0)) |}.

Definition normalize (strokes : list Stroke) (bounds : Bounds)
    (metrics : option Metrics) : list Stroke :=
  match strokes with
  | [] => []
  | _ =>
      let emHeight :=
        JS.or (JS.or_undef (metrics ≫= emHeight) (height bounds)) (Fin 1) in
      let originY := JS.nullish (metrics ≫= ascender) (minY bounds) in
      let originX := minX bounds in
      let scale := JS.or emHeight (Fin 1) in
      map (fun stroke =>
             {| points := map (normalize_point originX originY scale)
                              (points stroke) |})
          strokes
  end.

(** [calculateBounds(strokes)] *)
Definition bounds_acc : Type := (num * num * num * num)%type.

Definition bounds_point (acc : bounds_acc) (point : Point.t) : bounds_acc :=
  let '(minX, minY, maxX, maxY) := acc in
  (JS.min minX (Point.x point), JS.min minY (Point.y point),
   JS.max maxX (Point.x point), JS.max maxY (Point.y point)).

Definition bounds_stroke (acc : bounds_acc) (stroke : Stroke) : bounds_acc :=
  fold_left bounds_point (points stroke) acc.

Definition calculateBounds (strokes : list Stroke) : Bounds :=
  match strokes with
  | [] => mkBounds (Fin 0) (Fin 0) (Fin 0) (Fin 0) (Fin 0) (Fin 0)
  | _ =>
      let '(minX, minY, maxX, maxY) :=
        fold_left bounds_stroke strokes (PosInf, PosInf, NegInf, NegInf) in
      mkBounds minX minY maxX maxY (JS.sub maxX minX) (JS.sub maxY minY)
  end.

(** [perpendicularDistance(point, lineStart, lineEnd)] *)
Definition perpendicularDistance (point lineStart lineEnd : Point.t) : num :=
  let dx := JS.sub (Point.x lineEnd) (Point.x lineStart) in
  let dy := JS.sub (Point.y lineEnd) (Point.y lineStart) in
  if JS.eqb dx (Fin 0) && JS.eqb dy (Fin 0) then
    Math_hypot (JS.sub (Point.x point) (Point.x lineStart))
               (JS.sub (Point.y point) (Point.y lineStart))
  else
    let t :=
      JS.div (JS.add (JS.mul (JS.sub (Point.x point) (Point.x lineStart)) dx)
                     (JS.mul (JS.sub (Point.y point) (Point.y lineStart)) dy))
             (JS.add (JS.mul dx dx) (JS.mul dy dy)) in
    let '(closestX, closestY) :=
      if JS.lt t (Fin 0) then (Point.x lineStart, Point.y lineStart)
      else if JS.gt t (Fin 1) then (Point.x lineEnd, Point.y lineEnd)
      else (JS.add (Point.x lineStart) (JS.mul t dx),
            JS.add (Point.y lineStart) (JS.mul t dy)) in
    Math_hypot (JS.sub (Point.x point) closestX)
               (JS.sub (Point.y point) closestY).

(** The scan of the interior points, [for (i = 1; i < pts.length - 1; i++)],
    carrying [(maxDist, maxIndex)]. *)
Definition farthest_step (pts : list Point.t) (first last : Point.t)
    (acc : num * nat) (i : nat) : num * nat :=
  match pts !! i with
  | Some p =>
      let dist := perpendicularDistance p first last in
      if JS.gt dist (fst acc) then (dist, i) else acc
  | None => acc
  end.

Definition farthest (pts : list Point.t) (first last : Point.t) : num * nat :=
  fold_left (farthest_step pts first last)
            (seq 1 (length pts - 2)) (Fin 0, 0%nat).

(** The inner recursive [simplify(pts, tol)].  The recursion is general
    (for a negative tolerance it need not end), so it is run on fuel:
    [None] is a call that did not return within [fuel] nested calls. *)
Fixpoint simplify (fuel : nat) (pts : list Point.t) (tol : num)
  : option (list Point.t) :=
  match fuel with
  | O => None
  | S fuel' =>
      match pts, last pts with
      | first :: _ :: _ :: _, Some lst =>
          let '(maxDist, maxIndex) := farthest pts first lst in
          if JS.gt maxDist tol then
            match simplify fuel' (take (maxIndex + 1) pts) tol with
            | Some left' =>
                match simplify fuel' (drop maxIndex pts) tol with
                | Some right' => Some (removelast left' ++ right')
                | None => None
                end
            | None => None
            end
          else Some [first; lst]
      | _, _ => Some pts
      end
  end.

(** [simplifyStroke(points, tolerance = 1.0)] *)
Definition simplifyStroke (fuel : nat) (points : list Point.t)
    (tolerance : num) : option (list Point.t) :=
  if (length points <=? 2)%nat then Some points
  else simplify fuel points tolerance.

(** [applyVariation(strokes, config = {})]: the three options with their
    defaults, and the four values [Math.random()] returns, in call order. *)
Record VariationConfig : Type := mkVariationConfig {
  positionJitter : option num;
  rotationRange : option num;
  scaleRange : option num;
}.

Record Draws : Type := mkDraws {
  draw_rotation : num;
  draw_scale : num;
  draw_offsetX : num;
  draw_offsetY : num;
}.

Definition centred (r : num) : num := JS.mul (JS.sub r (Fin 0.5)) (Fin 2).

Definition vary_point (rotation scale offsetX offsetY centerX centerY : num)
    (point : Point.t) : Point.t :=
  let x := JS.sub (Point.x point) centerX in
  let y := JS.sub (Point.y point) centerY in
  let x := JS.mul x scale in
  let y := JS.mul y scale in
  let cos := Math_cos rotation in
  let sin := Math_sin rotation in
  let rotatedX := JS.sub (JS.mul x cos) (JS.mul y sin) in
  let rotatedY := JS.add (JS.mul x sin) (JS.mul y cos) in
  {| Point.x := JS.add (JS.add rotatedX centerX) offsetX;
     Point.y := JS.add (JS.add rotatedY centerY) offsetY;
     Point.pressure := Some (JS.or_undef (Point.pressure point) (Fin 0.5));
     Point.timestamp := Some (JS.or_undef (Point.timestamp point) (Fin 0)) |}.

Definition applyVariation (strokes : list Stroke) (config : VariationConfig)
    (random : Draws) : list Stroke :=
  let positionJitter := JS.nullish (positionJitter config) (Fin 0.02) in
  let rotationRange := JS.nullish (rotationRange config) (Fin 3) in
  let scaleRange := JS.nullish (scaleRange config) (Fin 0.05) in
  let rotation :=
    JS.mul (JS.mul (centred (draw_rotation random)) rotationRange)
           (JS.div JS.PI (Fin 180)) in
  let scale := JS.add (Fin 1) (JS.mul (centred (draw_scale random)) scaleRange) in
  let offsetX := JS.mul (centred (draw_offsetX random)) positionJitter in
  let offsetY := JS.mul (centred (draw_offsetY random)) positionJitter in
  let bounds := calculateBounds strokes in
  let centerX := JS.div (JS.add (minX bounds) (maxX bounds)) (Fin 2) in
  let centerY := JS.div (JS.add (minY bounds) (maxY bounds)) (Fin 2) in
  map (fun stroke =>
         {| points := map (vary_point rotation scale offsetX offsetY
                                      centerX centerY)
                          (points stroke) |})
      strokes.

(** [extractConnectors(strokes)] *)
Definition extractConnectors (strokes : list Stroke) : option Connector :=
  match strokes, last strokes with
  | firstStroke :: _, Some lastStroke =>
      match head (points firstStroke), last (points lastStroke) with
      | Some entry, Some exit =>
          let bounds := calculateBounds strokes in
          Some {| entry := mkPoint2D (Point.x entry) (Point.y entry);
                  exit := mkPoint2D (Point.x exit) (Point.y exit);
                  cwidth := JS.or (width bounds) (Fin 0) |}
      | _, _ => None
      end
  | _, _ => None
  end.

(** [mapPressureToWidth(pressure, minWidth, maxWidth)] *)
Definition mapPressureToWidth (pressure minWidth maxWidth : num) : num :=
  let normalizedPressure := JS.max (Fin 0) (JS.min (Fin 1) pressure) in
  JS.add minWidth (JS.mul (JS.sub maxWidth minWidth) normalizedPressure).

End WithMath.
End StrokeProcessor.

(** The remaining methods of [StrokeProcessor]. *)

Module StrokeProcessorRest.
Section WithMath.
Context {M : MathLib}.

(** [smoothStroke(points, windowSize = 3)].  The window of point [i] is
    [points[max(0, i - halfWindow) .. min(length - 1, i + halfWindow)]]. *)
Definition window (points : list Point.t) (halfWindow i : nat)
  : list Point.t :=
  let lo := (i - halfWindow)%nat in
  let hi := Nat.min (length points - 1) (i + halfWindow) in
  take (hi + 1 - lo) (drop lo points).

Definition sum_of (f : Point.t -> num) (points : list Point.t) : num :=
  fold_left (fun sum p => JS.add sum (f p)) points (Fin 0).

Definition count_of (points : list Point.t) : num :=
  Fin (inject_Z (Z.of_nat (length points))).

Definition smooth_point (points : list Point.t) (halfWindow i : nat)
    (point : Point.t) : Point.t :=
  let w := window points halfWindow i in
  {| Point.x := JS.div (sum_of Point.x w) (count_of w);
     Point.y := JS.div (sum_of Point.y w) (count_of w);
     Point.pressure := Some (JS.or_undef (Point.pressure point) (Fin 0.5));
     Point.timestamp := Some (JS.or_undef (Point.timestamp point) (Fin 0)) |}.

Definition smoothStroke (points : list Point.t) (windowSize : nat)
  : list Point.t :=
  if (length points <? windowSize)%nat then points
  else
    let halfWindow := (windowSize / 2)%nat in
    imap (smooth_point points halfWindow) points.

(** [calculateMetrics(stroke)] *)
Record StrokeMetrics : Type := mkStrokeMetrics {
  path_length : num;
  duration : num;
  avgSpeed : num;
}.

Fixpoint segments (prev : Point.t) (rest : list Point.t) (length : num)
  : num :=
  match rest with
  | [] => length
  | curr :: rest' =>
      let dx := JS.sub (Point.x curr) (Point.x prev) in
      let dy := JS.sub (Point.y curr) (Point.y prev) in
      segments curr rest' (JS.add length (Math_hypot dx dy))
  end.

Definition calculateMetrics (stroke : Stroke) : StrokeMetrics :=
  match points stroke with
  | first :: (_ :: _) as rest =>
      let length := segments first rest (Fin 0) in
      let duration :=
        JS.sub (JS.to_number (last (points stroke) ≫= Point.timestamp))
               (JS.to_number (Point.timestamp first)) in
      let avgSpeed :=
        if JS.gt duration (Fin 0) then JS.div length duration else Fin 0 in
      mkStrokeMetrics length duration avgSpeed
  | _ => mkStrokeMetrics (Fin 0) (Fin 0) (Fin 0)
  end.

(** [detectBaseline(strokes)]: [Math.max(...ys)] is [-Infinity] on no
    argument and is folded from there. *)
Definition lowest (stroke : Stroke) : num :=
  fold_left JS.max (map Point.y (points stroke)) NegInf.

Definition detectBaseline (strokes : list Stroke) : num :=
  match strokes with
  | [] => Fin 0
  | _ =>
      let sumY :=
        fold_left (fun sumY stroke => JS.add sumY (lowest stroke))
                  strokes (Fin 0) in
      JS.div sumY (Fin (inject_Z (Z.of_nat (length strokes))))
  end.

End WithMath.
End StrokeProcessorRest.

(** ** js/font-data.js *)

(** A stored character, as the schema of the font document has it. *)
Module Character.
Record t : Type := mk {
  strokes : list Stroke;
  bounds : Bounds;
  baseline : num;
  metrics : option Metrics;
  connectors : option Connector;
  timestamp : string;
}.
End Character.

(** The font document as the renderer reads it: a mapping from glyph key to
    stored character. *)
Module FontData.

Record t : Type := mk { characters : gmap string Character.t }.

(** [hasCharacter(char)]: [char in this.characters], on the keys of one or
    two characters of the line layout and of the standard set, for which
    [in] finds the own keys only (the names an object inherits are longer;
    [FontStore.hasCharacter] has them). *)
Definition hasCharacter (this : t) (char : string) : bool :=
  bool_decide (is_Some (characters this !! char)).

(** [getCharacter(char)]: [this.characters[char] || null], on the same
    keys ([FontStore.getCharacter] has the inherited names). *)
Definition getCharacter (this : t) (char : string) : option Character.t :=
  characters this !! char.

End FontData.

(** Parsed JSON, and [importJSON] on the document as raw JSON values: the
    import stores whatever object the file carries under [characters]. *)
#[local] Set Warnings "-register-all".
Inductive json : Type :=
  | JNull
  | JBool (b : bool)
  | JNumber (n : num)
  | JString (s : string)
  | JArray (items : list json)
  | JObject (fields : list (string * json)).

Class JSONLib : Type := { JSON_parse : string -> option json }.

Module FontDataImport.

(** Reading a property: of [null] it throws a TypeError, of an object it
    is the own property or [undefined], of anything else parsed from JSON
    it is [undefined] for a name such as [characters]. *)
Inductive access : Type :=
  | Throws
  | Undefined
  | Value (v : json).

Fixpoint own_property (fields : list (string * json)) (name : string)
  : access :=
  match fields with
  | [] => Undefined
  | (k, v) :: rest => if String.eqb k name then Value v else own_property rest name
  end.

Definition get (data : json) (name : string) : access :=
  match data with
  | JNull => Throws
  | JObject fields => own_property fields name
  | _ => Undefined
  end.

Definition truthy (v : json) : bool :=
  match v with
  | JNull => false
  | JBool b => b
  | JNumber n => JS.truthy n
  | JString s => negb (String.eqb s EmptyString)
  | JArray _ | JObject _ => true
  end.

(** [typeof v === "object"] *)
Definition typeof_object (v : json) : bool :=
  match v with
  | JNull | JArray _ | JObject _ => true
  | _ => false
  end.

Record t : Type := mk { characters : json; metadata : json }.

(** What the [catch] block logs. *)
Inductive import_error : Type :=
  | SyntaxError
  | TypeError
  | InvalidStructure.

Record outcome : Type := mkOutcome {
  returned : bool;
  this_after : t;
  logged : option import_error;
}.

(** The metadata of a fresh document, from two readings of the clock. *)
Definition fresh_metadata (created modified : string) : json :=
  JObject [("created"%string, JString created);
           ("modified"%string, JString modified);
           ("version"%string, JString "1.0"%string)].

Definition failed (this : t) (e : import_error) : outcome :=
  mkOutcome false this (Some e).

(** [importJSON(jsonString)] *)
Definition importJSON `{JSONLib} (clock : string * string) (this : t)
    (jsonString : string) : outcome :=
  match JSON_parse jsonString with
  | None => failed this SyntaxError
  | Some data =>
      match get data "characters" with
      | Throws => failed this TypeError
      | Undefined => failed this InvalidStructure
      | Value chars =>
          if negb (truthy chars) || negb (typeof_object chars) then
            failed this InvalidStructure
          else
            let metadata :=
              match get data "metadata" with
              | Value m =>
                  if truthy m then m
                  else fresh_metadata (fst clock) (snd clock)
              | _ => fresh_metadata (fst clock) (snd clock)
              end in
            mkOutcome true (mk chars metadata) None
      end
  end.

End FontDataImport.

(** The whole [FontData] class on the typed document: the characters and
    the metadata, with the readings of the clock ([new Date().toISOString()])
    passed in.  The order of [Object.keys] is not kept by the map: what is
    stated of [getCapturedCharacters] does not depend on it. *)
Module FontStore.

Record Metadata : Type := mkMetadata {
  created : string;
  modified : string;
  version : string;
}.

Record t : Type := mk { data : FontData.t; metadata : Metadata }.

(** [this.metadata.modified = new Date().toISOString()] *)
Definition touch (m : Metadata) (now : string) : Metadata :=
  mkMetadata (created m) now (version m).

(** [constructor()] *)
Definition create (now1 now2 : string) : t :=
  mk (FontData.mk ∅) (mkMetadata now1 now2 "1.0").

(** The names every object inherits from [Object.prototype]. *)
Definition Object_prototype_names : list string :=
  ["constructor"; "__defineGetter__"; "__defineSetter__"; "hasOwnProperty";
   "__lookupGetter__"; "__lookupSetter__"; "isPrototypeOf";
   "propertyIsEnumerable"; "toString"; "valueOf"; "__proto__";
   "toLocaleString"]%string.

Definition inherited (char : string) : bool :=
  bool_decide (char ∈ Object_prototype_names).

(** [hasCharacter(char)], for every key: [char in this.characters] finds the
    own keys and the inherited names. *)
Definition hasCharacter (this : t) (char : string) : bool :=
  FontData.hasCharacter (data this) char || inherited char.

(** [getCharacter(char)], for every key: [this.characters[char] || null] is
    the stored record, or for an inherited name that is not an own key the
    inherited value (a function, or the prototype itself: truthy), or
    [null]. *)
Inductive Found : Type :=
  | Glyph (charData : Character.t)
  | Inherited
  | Null.

Definition getCharacter (this : t) (char : string) : Found :=
  match FontData.characters (data this) !! char with
  | Some charData => Glyph charData
  | None => if inherited char then Inherited else Null
  end.

(** [setCharacter(char, strokes, bounds, baseline, metrics, connectors)],
    for a key other than [__proto__]: the assignment makes an own key, of
    an inherited name too.  (Under [__proto__] it would replace the
    prototype of the object and make no key.) *)
Definition setCharacter (this : t) (char : string) (strokes : list Stroke)
    (bounds : Bounds) (baseline : option num) (metrics : option Metrics)
    (connectors : option Connector) (stamp now : string) : t :=
  mk (FontData.mk
        (<[char := Character.mk strokes bounds (JS.or_undef baseline (Fin 0))
                     metrics connectors stamp]>
           (FontData.characters (data this))))
     (touch (metadata this) now).

(** [removeCharacter(char)]: [delete] of a name that is no own key does
    nothing, but the time is stamped for every name [in] finds. *)
Definition removeCharacter (this : t) (char : string) (now : string) : t :=
  if hasCharacter this char then
    mk (FontData.mk (delete char (FontData.characters (data this))))
       (touch (metadata this) now)
  else this.

(** [getCapturedCharacters()] *)
Definition getCapturedCharacters (this : t) : list string :=
  (map_to_list (FontData.characters (data this))).*1.

(** [getStatistics()] *)
Record Statistics : Type := mkStatistics {
  capturedCount : nat;
  totalStrokes : nat;
  characters : list string;
  stat_modified : string;
}.

Definition strokeCount (this : t) (char : string) : nat :=
  match FontData.characters (data this) !! char with
  | Some c => length (Character.strokes c)
  | None => 0
  end.

Definition getStatistics (this : t) : Statistics :=
  let captured := getCapturedCharacters this in
  let totalStrokes :=
    fold_left (fun sum char => (sum + strokeCount this char)%nat) captured 0%nat in
  mkStatistics (length captured) totalStrokes captured
               (modified (metadata this)).

(** [getStandardCharacterSet()] *)
Definition fromCharCode (code : nat) : string :=
  String (Ascii.ascii_of_nat code) EmptyString.

Definition getStandardCharacterSet : list string :=
  map fromCharCode (seq 97 26)
  ++ map fromCharCode (seq 65 26)
  ++ map fromCharCode (seq 48 10)
  ++ [" "; "."; ","; "!"; "?"; ";"; ":"; "-"; "("; ")"; fromCharCode 34; "'"]%string.

(** [getMissingCharacters()] *)
Definition getMissingCharacters (this : t) : list string :=
  List.filter (fun char => negb (FontData.hasCharacter (data this) char))
              getStandardCharacterSet.

(** [clear()] *)
Definition clear (this : t) (now : string) : t :=
  mk (FontData.mk ∅) (touch (metadata this) now).

End FontStore.

(** [exportJSON], and the local storage, on the document as raw JSON. *)
Class JSONWriter : Type := { JSON_stringify : json -> string }.

Module FontDataStorage.
Section WithJSON.
Context {J : JSONLib} {W : JSONWriter}.

(** [exportJSON()]: [JSON.stringify({metadata, characters}, null, 2)] *)
Definition exportJSON (this : FontDataImport.t) : string :=
  JSON_stringify
    (JObject [("metadata"%string, FontDataImport.metadata this);
              ("characters"%string, FontDataImport.characters this)]).

(** [loadFromLocalStorage(key)]: [getItem] gives [null] for a key that is
    not stored; [null] and the empty string are falsy. *)
Definition loadFromLocalStorage (storage : gmap string string)
    (clock : string * string) (this : FontDataImport.t) (key : string)
  : bool * FontDataImport.t :=
  match storage !! key with
  | Some data =>
      if String.eqb data EmptyString then (false, this)
      else
        let r := FontDataImport.importJSON clock this data in
        (FontDataImport.returned r, FontDataImport.this_after r)
  | None => (false, this)
  end.

(** [saveToLocalStorage(key)]; [setItem] may throw (the quota), which is the
    [None] of the parameter [setItem]. *)
Definition saveToLocalStorage
    (setItem : gmap string string -> string -> string
               -> option (gmap string string))
    (storage : gmap string string) (this : FontDataImport.t) (key : string)
  : bool * gmap string string :=
  match setItem storage key (exportJSON this) with
  | Some storage' => (true, storage')
  | None => (false, storage)
  end.

End WithJSON.
End FontDataStorage.

(** ** js/text-renderer.js *)

Class NumberLib : Type := { toFixed2 : num -> string }.

Module TextRenderer.

Record RenderConfig : Type := mkConfig {
  fontSize : num;
  letterSpacing : num;
  lineHeight : num;
  variation : num;
  connectCursive : bool;
  strokeColor : string;
}.

Definition MIN_STROKE_WIDTH : num := Fin 1.5.
Definition MAX_STROKE_WIDTH : num := Fin 3.

(** The double quote and the line feed of the template strings. *)
Definition dq : string := String (Ascii.ascii_of_nat 34) EmptyString.
Definition nl : string := String (Ascii.ascii_of_nat 10) EmptyString.

(** [{...connector, exitAbsX, exitAbsY, strokeWidth}] *)
Record PrevConnector : Type := mkPrev {
  connector : Connector;
  exitAbsX : num;
  exitAbsY : num;
  strokeWidth : num;
}.

(** The variables of the loop of [renderLine].  [draws] counts the calls of
    [Math.random] so far.  [lookups] is a ghost: the keys passed to
    [fontData.getCharacter], in order. *)
Module LineState.
Record t : Type := mk {
  i : nat;
  xPosition : num;
  svgContent : string;
  missingChars : list string;
  prevConnector : option PrevConnector;
  draws : nat;
  lookups : list string;
}.
End LineState.

(** The object [renderLine] returns. *)
Module LineResult.
Record t : Type := mk { svg : string; width : num }.
End LineResult.

Section WithHost.
Context {M : MathLib} {N : NumberLib}.
Variable fontData : FontData.t.
Variable config : RenderConfig.
Variable random : nat -> num.

(** [JSON.parse(JSON.stringify(strokes))]: a number that is not finite is
    written as [null], which reads as 0 in arithmetic and is falsy. *)
Definition copy_coordinate (a : num) : num :=
  match a with Fin q => Fin q | _ => Fin 0 end.

Definition copy_optional (o : option num) : option num :=
  match o with Some (Fin q) => Some (Fin q) | _ => None end.

Definition deepCopy (strokes : list Stroke) : list Stroke :=
  map (fun stroke =>
         {| points :=
              map (fun p =>
                     Point.mk (copy_coordinate (Point.x p))
                              (copy_coordinate (Point.y p))
                              (copy_optional (Point.pressure p))
                              (copy_optional (Point.timestamp p)))
                  (points stroke) |})
      strokes.

(** [getBaselineNorm(charData)] *)
Definition getBaselineNorm (charData : Character.t) : num :=
  match Character.metrics charData with
  | Some m =>
      match emHeight m with
      | Some e =>
          if JS.truthy e then
            JS.div (JS.sub (JS.to_number (baseline m))
                           (JS.to_number (ascender m))) e
          else Fin 0.7
      | None => Fin 0.7
      end
  | None => Fin 0.7
  end.

(** [generatePathData(points, scale)] *)
Definition coordinates (p : Point.t) (scale : num) : string :=
  toFixed2 (JS.mul (Point.x p) scale) +:+ " " +:+
  toFixed2 (JS.mul (Point.y p) scale).

Fixpoint curves (points : list Point.t) (scale : num) : string :=
  match points with
  | curr :: (next :: _) as rest =>
      " Q " +:+ coordinates curr scale +:+ ", " +:+
      toFixed2 (JS.mul (JS.div (JS.add (Point.x curr) (Point.x next)) (Fin 2))
                       scale) +:+ " " +:+
      toFixed2 (JS.mul (JS.div (JS.add (Point.y curr) (Point.y next)) (Fin 2))
                       scale) +:+
      curves rest scale
  | _ => EmptyString
  end.

Fixpoint lines (points : list Point.t) (scale : num) : string :=
  match points with
  | [] => EmptyString
  | p :: rest => " L " +:+ coordinates p scale +:+ lines rest scale
  end.

Definition generatePathData (points : list Point.t) (scale : num) : string :=
  match points with
  | [] => EmptyString
  | p0 :: rest =>
      let pathData := "M " +:+ coordinates p0 scale in
      if (2 <? length points)%nat then
        match last points with
        | Some lst =>
            pathData +:+ curves rest scale +:+ " L " +:+ coordinates lst scale
        | None => pathData
        end
      else pathData +:+ lines rest scale
  end.

(** The mean pressure of a stroke, each pressure defaulted to 0.5. *)
Definition pressure_sum (points : list Point.t) : num :=
  fold_left (fun sum p => JS.add sum (JS.or_undef (Point.pressure p) (Fin 0.5)))
            points (Fin 0).

Definition path_element (d : string) (strokeWidth : num) : string :=
  "<path d=" +:+ dq +:+ d +:+ dq +:+
  " fill=" +:+ dq +:+ "none" +:+ dq +:+
  " stroke=" +:+ dq +:+ strokeColor config +:+ dq +:+
  " stroke-width=" +:+ dq +:+ toFixed2 strokeWidth +:+ dq +:+
  " stroke-linecap=" +:+ dq +:+ "round" +:+ dq +:+
  " stroke-linejoin=" +:+ dq +:+ "round" +:+ dq +:+ "/>" +:+ nl.

(** The body of [strokes.forEach] in [renderCharacter] *)
Definition renderStroke (size : num) (stroke : Stroke) : string :=
  if (length (points stroke) <? 2)%nat then EmptyString
  else
    let avgPressure :=
      JS.div (pressure_sum (points stroke))
             (Fin (inject_Z (Z.of_nat (length (points stroke))))) in
    let strokeWidth :=
      StrokeProcessor.mapPressureToWidth avgPressure
        MIN_STROKE_WIDTH MAX_STROKE_WIDTH in
    let pathData := generatePathData (points stroke) size in
    "    " +:+ path_element pathData strokeWidth.

(** [renderCharacter(strokes, x, baselineY, size, charData)] *)
Definition renderCharacter (strokes : list Stroke) (x baselineY size : num)
    (charData : Character.t) : string :=
  let baselineNorm := getBaselineNorm charData in
  let yOffset := JS.sub baselineY (JS.mul baselineNorm size) in
  let svg :=
    "  <g transform=" +:+ dq +:+ "translate(" +:+ toFixed2 x +:+ ", " +:+
    toFixed2 yOffset +:+ ")" +:+ dq +:+ ">" +:+ nl in
  let svg :=
    fold_left (fun svg stroke => svg +:+ renderStroke size stroke)
              strokes svg in
  svg +:+ "  </g>" +:+ nl.

(** The head of the loop body of [renderLine]: which key is looked up at
    position [i], and how many characters it consumes. *)
Definition pairKey (text : string) (i : nat) : string := String.substring i 2 text.
Definition singleKey (text : string) (i : nat) : string := String.substring i 1 text.

Definition usePair (text : string) (i : nat) : bool :=
  (i + 1 <? String.length text)%nat
  && FontData.hasCharacter fontData (pairKey text i).

Definition glyphKey (text : string) (i : nat) : string :=
  if usePair text i then pairKey text i else singleKey text i.

Definition step (text : string) (i : nat) : nat :=
  if usePair text i then 2%nat else 1%nat.

Definition variationConfig : StrokeProcessor.VariationConfig :=
  {| StrokeProcessor.positionJitter := Some (JS.mul (variation config) (Fin 0.01));
     StrokeProcessor.rotationRange := Some (JS.mul (variation config) (Fin 1.5));
     StrokeProcessor.scaleRange := Some (JS.mul (variation config) (Fin 0.02)) |}.

Definition next_draws (n : nat) : StrokeProcessor.Draws :=
  StrokeProcessor.mkDraws (random n) (random (n + 1)) (random (n + 2))
                          (random (n + 3)).

(** The joining segment of two cursive glyphs. *)
Definition joinPath (prev : PrevConnector) (startAbsX startAbsY : num)
  : string :=
  "  " +:+
  path_element
    ("M " +:+ toFixed2 (exitAbsX prev) +:+ " " +:+ toFixed2 (exitAbsY prev)
     +:+ " L " +:+ toFixed2 startAbsX +:+ " " +:+ toFixed2 startAbsY)
    (strokeWidth prev).

(** A glyph that is in the document: what is appended to the markup, the
    advance of the cursor and the connector left for the next glyph. *)
Definition placeGlyph (charData : Character.t) (startY : num)
    (st : LineState.t) : string * num * option PrevConnector :=
  let normalizedStrokes :=
    StrokeProcessor.normalize (deepCopy (Character.strokes charData))
      (Character.bounds charData) (Character.metrics charData) in
  let variedStrokes :=
    StrokeProcessor.applyVariation normalizedStrokes variationConfig
      (next_draws (LineState.draws st)) in
  let baselineNorm := getBaselineNorm charData in
  let yOffset := JS.sub startY (JS.mul baselineNorm (fontSize config)) in
  let connector := StrokeProcessor.extractConnectors variedStrokes in
  let join :=
    match connectCursive config, LineState.prevConnector st, connector with
    | true, Some prev, Some c =>
        let startAbsX :=
          JS.add (LineState.xPosition st) (JS.mul (x2 (entry c)) (fontSize config)) in
        let startAbsY :=
          JS.add yOffset (JS.mul (y2 (entry c)) (fontSize config)) in
        joinPath prev startAbsX startAbsY
    | _, _, _ => EmptyString
    end in
  let charSVG :=
    renderCharacter variedStrokes (LineState.xPosition st) startY (fontSize config)
                    charData in
  let normalizedBounds := StrokeProcessor.calculateBounds variedStrokes in
  let normalizedWidth := JS.or (width normalizedBounds) (Fin 0.6) in
  let charWidth := JS.mul normalizedWidth (fontSize config) in
  let prev' :=
    match connector with
    | Some c =>
        let exitAbsX :=
          JS.add (LineState.xPosition st) (JS.mul (x2 (exit c)) (fontSize config)) in
        let exitAbsY :=
          JS.add yOffset (JS.mul (y2 (exit c)) (fontSize config)) in
        let firstPoints :=
          match head variedStrokes with
          | Some firstStroke => points firstStroke
          | None => []
          end in
        let pointCount :=
          if (length firstPoints =? 0)%nat then 1%nat else length firstPoints in
        let avgPressure :=
          JS.div (pressure_sum firstPoints)
                 (Fin (inject_Z (Z.of_nat pointCount))) in
        let strokeWidth :=
          StrokeProcessor.mapPressureToWidth avgPressure
            MIN_STROKE_WIDTH MAX_STROKE_WIDTH in
        Some (mkPrev c exitAbsX exitAbsY strokeWidth)
    | None => None
    end in
  (join +:+ charSVG, JS.add charWidth (letterSpacing config), prev').

(** One turn of [for (let i = 0; i < text.length; )]. *)
Definition renderLine_iteration (text : string) (startY : num)
    (st : LineState.t) : LineState.t :=
  let 'LineState.mk i xPosition svgContent missingChars prevConnector
                    draws lookups := st in
  let glyphKey := glyphKey text i in
  let step := step text i in
  if String.eqb glyphKey " " then
    LineState.mk (i + step)
      (JS.add xPosition (JS.mul (fontSize config) (Fin 0.3)))
      svgContent missingChars prevConnector draws lookups
  else
    match FontData.getCharacter fontData glyphKey with
    | None =>
        LineState.mk (i + step)
          (JS.add xPosition (JS.mul (fontSize config) (Fin 0.5)))
          svgContent (missingChars ++ [glyphKey]) prevConnector draws
          (lookups ++ [glyphKey])
    | Some charData =>
        let '(markup, advance, prev') := placeGlyph charData startY st in
        LineState.mk (i + step) (JS.add xPosition advance)
          (svgContent +:+ markup) missingChars prev' (draws + 4)
          (lookups ++ [glyphKey])
    end.

(** The loop, on fuel: [None] is a loop still running when the fuel is
    spent. *)
Fixpoint renderLine_loop (fuel : nat) (text : string) (startY : num)
    (st : LineState.t) : option LineState.t :=
  if (LineState.i st <? String.length text)%nat then
    match fuel with
    | O => None
    | S fuel' =>
        renderLine_loop fuel' text startY (renderLine_iteration text startY st)
    end
  else Some st.

Definition initial (startX : num) : LineState.t :=
  LineState.mk 0 startX EmptyString [] None 0 [].

(** [[...new Set(missingChars)]]: first occurrences, in order. *)
Fixpoint unique (seen keys : list string) : list string :=
  match keys with
  | [] => []
  | k :: rest =>
      if bool_decide (k ∈ seen) then unique seen rest
      else k :: unique (k :: seen) rest
  end.

(** The arguments of [console.warn], when it is called. *)
Definition warning (missingChars : list string) : option (string * string) :=
  match missingChars with
  | [] => None
  | _ => Some ("Missing characters:"%string,
               String.concat ", " (unique [] missingChars))
  end.

(** [renderLine(text, startX, startY)]: the returned object and what is
    written to the console. *)
Definition renderLine (text : string) (startX startY : num)
  : option (LineResult.t * option (string * string)) :=
  match renderLine_loop (String.length text) text startY (initial startX) with
  | Some st =>
      Some ({| LineResult.svg := LineState.svgContent st;
               LineResult.width := JS.sub (LineState.xPosition st) startX |},
            warning (LineState.missingChars st))
  | None => None
  end.

End WithHost.
End TextRenderer.

(** ** js/text-renderer.js: the whole text *)

(** The conversion of a number to a string in a template literal. *)
Class NumberPrinter : Type := { Number_toString : num -> string }.

(** The message of the [SyntaxError] that [JSON.parse(undefined)] throws. *)
Class ParseErrors : Type := { parse_undefined_message : string }.

Module TextDocument.

(** A value stored under a key of [characters], as far as the render tells
    them apart: the record of a captured character, or a truthy value with
    no [strokes] property, such as the [{}] of an imported file. *)
Inductive Stored : Type :=
  | WellFormed (charData : Character.t)
  | NoStrokes.

(** The [characters] of the font in use. *)
Abbreviation Document := (gmap string Stored).

(** A turn of the loop of [renderLine] goes on, or throws. *)
Inductive Turn : Type :=
  | Next (st : TextRenderer.LineState.t)
  | Throws.

(** A call of [renderLine] returns its object, with a warning written to
    the console or none ([draws] is the number of random numbers it took),
    or throws. *)
Inductive LineOutcome : Type :=
  | LineReturned (result : TextRenderer.LineResult.t)
                 (warned : option (string * string)) (draws : nat)
  | LineThrew.

(** The variables of the [forEach] of [generateTextSVG]; [used] counts the
    calls of [Math.random] of the lines done, [warnings] is what they wrote
    to the console. *)
Record LinesState : Type := mkLines {
  svgContent : string;
  yPosition : num;
  used : nat;
  warnings : list (string * string);
}.

(** The [forEach] runs to its end, or a line throws. *)
Inductive Lines : Type :=
  | Done (st : LinesState)
  | Broke (warned : list (string * string)).

(** [generateTextSVG] returns the document, or throws. *)
Inductive Generated : Type :=
  | Returned (svg : string) (warned : list (string * string))
  | Threw (warned : list (string * string)).

(** What [renderText] does: one [alert], or the SVG handed to [displaySVG],
    or, when the generation throws, the [alert] of the error (which is also
    written to the console); with what the lines wrote to the console. *)
Inductive Outcome : Type :=
  | Alerted (message : string)
  | Displayed (svg : string) (warned : list (string * string))
  | Failed (message : string) (warned : list (string * string)).

(** [text.split("\n")] *)
Fixpoint split_lines (text : string) : list string :=
  match text with
  | EmptyString => [EmptyString]
  | String c rest =>
      if Ascii.eqb c (Ascii.ascii_of_nat 10) then
        EmptyString :: split_lines rest
      else
        match split_lines rest with
        | line :: lines => String c line :: lines
        | [] => [String c EmptyString]
        end
  end.

Section WithHost.
Context {M : MathLib} {N : NumberLib} {P : NumberPrinter} {E : ParseErrors}.
Variable config : TextRenderer.RenderConfig.

(** [fontData.hasCharacter(pairKey)], on a key of two characters. *)
Definition hasCharacter (doc : Document) (char : string) : bool :=
  bool_decide (is_Some (doc !! char)).

Definition usePair (doc : Document) (text : string) (i : nat) : bool :=
  (i + 1 <? String.length text)%nat
  && hasCharacter doc (TextRenderer.pairKey text i).

Definition glyphKey (doc : Document) (text : string) (i : nat) : string :=
  if usePair doc text i then TextRenderer.pairKey text i
  else TextRenderer.singleKey text i.

Definition step (doc : Document) (text : string) (i : nat) : nat :=
  if usePair doc text i then 2%nat else 1%nat.

(** One turn of [for (let i = 0; i < text.length; )].  On a value without
    strokes, [JSON.stringify(charData.strokes)] is [undefined] and
    [JSON.parse] of it throws. *)
Definition renderLine_iteration (doc : Document) (random : nat -> num)
    (text : string) (startY : num) (st : TextRenderer.LineState.t) : Turn :=
  let 'TextRenderer.LineState.mk i xPosition svgContent missingChars
         prevConnector draws lookups := st in
  let glyphKey := glyphKey doc text i in
  let step := step doc text i in
  if String.eqb glyphKey " " then
    Next (TextRenderer.LineState.mk (i + step)
            (JS.add xPosition (JS.mul (TextRenderer.fontSize config) (Fin 0.3)))
            svgContent missingChars prevConnector draws lookups)
  else
    match doc !! glyphKey with
    | None =>
        Next (TextRenderer.LineState.mk (i + step)
                (JS.add xPosition
                        (JS.mul (TextRenderer.fontSize config) (Fin 0.5)))
                svgContent (missingChars ++ [glyphKey]) prevConnector draws
                (lookups ++ [glyphKey]))
    | Some NoStrokes => Throws
    | Some (WellFormed charData) =>
        let '(markup, advance, prev') :=
          TextRenderer.placeGlyph config random charData startY st in
        Next (TextRenderer.LineState.mk (i + step) (JS.add xPosition advance)
                (svgContent +:+ markup) missingChars prev' (draws + 4)
                (lookups ++ [glyphKey]))
    end.

(** The loop, on fuel: [None] is a loop still running when the fuel is
    spent. *)
Fixpoint renderLine_loop (fuel : nat) (doc : Document) (random : nat -> num)
    (text : string) (startY : num) (st : TextRenderer.LineState.t)
  : option Turn :=
  if (TextRenderer.LineState.i st <? String.length text)%nat then
    match fuel with
    | O => None
    | S fuel' =>
        match renderLine_iteration doc random text startY st with
        | Next st' => renderLine_loop fuel' doc random text startY st'
        | Throws => Some Throws
        end
    end
  else Some (Next st).

(** [renderLine(text, startX, startY)] *)
Definition renderLine (doc : Document) (random : nat -> num) (text : string)
    (startX startY : num) : option LineOutcome :=
  match renderLine_loop (String.length text) doc random text startY
          (TextRenderer.initial startX) with
  | Some (Next st) =>
      Some (LineReturned
              {| TextRenderer.LineResult.svg :=
                   TextRenderer.LineState.svgContent st;
                 TextRenderer.LineResult.width :=
                   JS.sub (TextRenderer.LineState.xPosition st) startX |}
              (TextRenderer.warning (TextRenderer.LineState.missingChars st))
              (TextRenderer.LineState.draws st))
  | Some Throws => Some LineThrew
  | None => None
  end.

(** The [forEach] over the lines: they are laid out one after the other,
    each going on in the stream of random numbers where the one before
    stopped; a line that throws ends it. *)
Fixpoint renderLines (doc : Document) (random : nat -> num)
    (lineHeightPx : num) (lines : list string) (st : LinesState)
  : option Lines :=
  match lines with
  | [] => Some (Done st)
  | line :: rest =>
      match renderLine doc (fun n => random (used st + n)%nat) line (Fin 50)
                       (yPosition st) with
      | Some (LineReturned lineResult warned draws) =>
          renderLines doc random lineHeightPx rest
            {| svgContent :=
                 svgContent st +:+ TextRenderer.LineResult.svg lineResult;
               yPosition := JS.add (yPosition st) lineHeightPx;
               used := (used st + draws)%nat;
               warnings := warnings st ++ option_list warned |}
      | Some LineThrew => Some (Broke (warnings st))
      | None => None
      end
  end.

(** [generateTextSVG(text)]; [now] is [new Date().toISOString()]. *)
Definition generateTextSVG (doc : Document) (random : nat -> num)
    (now : string) (text : string) : option Generated :=
  let lines := split_lines text in
  let lineHeightPx :=
    JS.mul (TextRenderer.fontSize config) (TextRenderer.lineHeight config) in
  let totalHeight :=
    JS.add (JS.mul (Fin (inject_Z (Z.of_nat (length lines)))) lineHeightPx)
           (Fin 100) in
  let maxLineLength :=
    fold_left JS.max
      (map (fun line => Fin (inject_Z (Z.of_nat (String.length line)))) lines)
      NegInf in
  let totalWidth :=
    JS.add (JS.mul maxLineLength
                   (JS.add (JS.mul (TextRenderer.fontSize config) (Fin 0.6))
                           (TextRenderer.letterSpacing config)))
           (Fin 100) in
  let dq := TextRenderer.dq in
  let nl := TextRenderer.nl in
  let svg :=
    "<svg xmlns=" +:+ dq +:+ "http://www.w3.org/2000/svg" +:+ dq
    +:+ " width=" +:+ dq +:+ Number_toString totalWidth +:+ dq
    +:+ " height=" +:+ dq +:+ Number_toString totalHeight +:+ dq
    +:+ " viewBox=" +:+ dq +:+ "0 0 " +:+ Number_toString totalWidth
    +:+ " " +:+ Number_toString totalHeight +:+ dq +:+ ">" +:+ nl in
  let svg := svg +:+ "  <metadata>" +:+ nl in
  let svg :=
    svg +:+ "    <generator>Handwriting SVG Generator</generator>" +:+ nl in
  let svg := svg +:+ "    <created>" +:+ now +:+ "</created>" +:+ nl in
  let svg := svg +:+ "  </metadata>" +:+ nl in
  match renderLines doc random lineHeightPx lines
          (mkLines EmptyString lineHeightPx 0 []) with
  | Some (Done st) =>
      Some (Returned (svg +:+ svgContent st +:+ "</svg>") (warnings st))
  | Some (Broke warned) => Some (Threw warned)
  | None => None
  end.

(** [renderText()], on the value of the text box and the global
    [fontData] ([null], or a font with its [characters]);
    [getStatistics().capturedCount] is the number of keys of
    [characters]. *)
Definition renderText (fontData : option Document) (random : nat -> num)
    (now : string) (text : string) : option Outcome :=
  if String.eqb text EmptyString then
    Some (Alerted "Please enter some text to render.")
  else
    match fontData with
    | None => Some (Alerted "Please load handwriting data first.")
    | Some doc =>
        if (size doc =? 0)%nat
        then Some (Alerted "Please load handwriting data first.")
        else
          match generateTextSVG doc random now text with
          | Some (Returned svg warned) => Some (Displayed svg warned)
          | Some (Threw warned) =>
              Some (Failed ("Error rendering text: "
                            +:+ parse_undefined_message) warned)
          | None => None
          end
    end.

End WithHost.
End TextDocument.

(** ** The capture tool: saving the drawn character *)

Module Capture.
Section WithMath.
Context {M : MathLib}.

(** [GUIDELINE_METRICS], as fractions of the height of the canvas *)
Definition GUIDELINE_ascender : num := Fin 0.18.
Definition GUIDELINE_xHeight : num := Fin 0.46.
Definition GUIDELINE_baseline : num := Fin 0.66.
Definition GUIDELINE_descender : num := Fin 0.82.

(** The [metrics] object of [saveCurrentCharacter] *)
Definition captureMetrics (canvasWidth canvasHeight : num) : Metrics :=
  {| ascender := Some (JS.mul GUIDELINE_ascender canvasHeight);
     xHeight := Some (JS.mul GUIDELINE_xHeight canvasHeight);
     baseline := Some (JS.mul GUIDELINE_baseline canvasHeight);
     descender := Some (JS.mul GUIDELINE_descender canvasHeight);
     emHeight :=
       Some (JS.mul (JS.sub GUIDELINE_descender GUIDELINE_ascender)
                    canvasHeight);
     captureWidth := Some canvasWidth |}.

(** [currentStrokes.map(stroke => ({points: simplifyStroke(stroke.points, 2)}))] *)
Definition simplifyStrokes (fuel : nat) (strokes : list Stroke)
  : option (list Stroke) :=
  mapM (fun stroke =>
          mkStroke <$> StrokeProcessor.simplifyStroke fuel (points stroke) (Fin 2))
       strokes.

Inductive save_outcome : Type :=
  | NothingDrawn
  | Unfinished
  | Saved (fontData : FontStore.t).

(** [saveCurrentCharacter()], up to the call of [setCharacter]; the write
    to the local storage and the refresh of the page that follow are left
    out.  [Unfinished] is a simplification still running when the fuel is
    spent, [NothingDrawn] the alert on an empty canvas. *)
Definition saveCurrentCharacter (fuel : nat) (fontData : FontStore.t)
    (currentChar : string) (currentStrokes : list Stroke)
    (canvasWidth canvasHeight : num) (stamp now : string) : save_outcome :=
  match currentStrokes with
  | [] => NothingDrawn
  | _ =>
      let bounds := StrokeProcessor.calculateBounds currentStrokes in
      let baseline := StrokeProcessorRest.detectBaseline currentStrokes in
      let metrics := captureMetrics canvasWidth canvasHeight in
      match simplifyStrokes fuel currentStrokes with
      | None => Unfinished
      | Some simplifiedStrokes =>
          let normalizedForConnectors :=
            StrokeProcessor.normalize simplifiedStrokes bounds (Some metrics) in
          let connectors :=
            StrokeProcessor.extractConnectors normalizedForConnectors in
          Saved (FontStore.setCharacter fontData currentChar simplifiedStrokes
                   bounds (Some baseline) (Some metrics) connectors stamp now)
      end
  end.

End WithMath.
End Capture.

(** ** A computable stand-in for the host's [Math]

    Square root to six decimals, the Taylor polynomials of degree 8 and 9 and
    a decimal printer: enough to run the definitions on concrete strokes. *)

Module ApproxMath.

Definition Qsqrt (q : Q) : Q :=
  Z.sqrt (Qnum q * 1000000000000 / Zpos (Qden q)) # 1000000.

Definition on_finite (f : Q -> Q) (a : num) : num :=
  match a with Fin q => Fin (Qred (f q)) | _ => NaN end.

Definition hypot (a b : num) : num :=
  match a, b with
  | NaN, _ | _, NaN => NaN
  | Fin p, Fin q => Fin (Qred (Qsqrt (p * p + q * q)))
  | _, _ => PosInf
  end.

Definition cos_poly (z : Q) : Q :=
  let z2 := z * z in
  1 - z2 / 2 + z2 * z2 / 24 - z2 * z2 * z2 / 720
    + z2 * z2 * z2 * z2 / 40320.

Definition sin_poly (z : Q) : Q :=
  let z2 := z * z in
  z * (1 - z2 / 6 + z2 * z2 / 120 - z2 * z2 * z2 / 5040
         + z2 * z2 * z2 * z2 / 362880).

Definition math : MathLib :=
  {| Math_hypot := hypot;
     Math_cos := on_finite cos_poly;
     Math_sin := on_finite sin_poly |}.

(** [x.toFixed(2)]: hundredths, rounded half away from zero. *)
Definition hundredths (q : Q) : Z :=
  (2 * Z.abs (Qnum q) * 100 + Zpos (Qden q)) / (2 * Zpos (Qden q)).

Definition two_digits (z : Z) : string :=
  (if (z <? 10)%Z then "0" else EmptyString) +:+ pretty z.

Definition fixed2 (a : num) : string :=
  match a with
  | NaN => "NaN"
  | PosInf => "Infinity"
  | NegInf => "-Infinity"
  | Fin q =>
      let h := hundredths q in
      (if (Qnum q <? 0)%Z then "-" else EmptyString) +:+
      pretty (h / 100)%Z +:+ "." +:+ two_digits (h mod 100)%Z
  end.

Definition number : NumberLib := {| toFixed2 := fixed2 |}.

(** A random source stuck at 0.5, the centre of its range. *)
Definition steady : nat -> num := fun _ => Fin 0.5.

End ApproxMath.

Definition pt (x y : Q) : Point.t :=
  Point.mk (Fin x) (Fin y) (Some (Fin 0.5)) (Some (Fin 0)).

(** ** Definitions of the specification, and sample data *)

(** Scenario A of the specification: the four-point zigzag. *)
Definition scenarioA : list Point.t := [pt 0 0; pt 10 0; pt 10 10; pt 20 10].

(** The scale and the vertical origin in the words of the specification.
    "Present and nonzero" is read as: a number ([NaN] is none) other than 0. *)
Definition spec_scale (bounds : Bounds) (metrics : option Metrics) : num :=
  match metrics ≫= emHeight with
  | Some e =>
      if JS.truthy e then e
      else if JS.truthy (height bounds) then height bounds else Fin 1
  | None => if JS.truthy (height bounds) then height bounds else Fin 1
  end.

(** "[metrics.ascender] when metrics are supplied, [bounds.minY] otherwise". *)
Definition spec_originY (bounds : Bounds) (metrics : option Metrics)
  : option num :=
  match metrics with
  | Some m => ascender m
  | None => Some (minY bounds)
  end.

Definition boundsB : Bounds :=
  mkBounds (Fin 0) (Fin 0) (Fin 40) (Fin 60) (Fin 40) (Fin 60).

Definition metricsB : Metrics :=
  mkMetrics (Some (Fin 0)) None None None (Some (Fin 60)) None.

(** The identity configuration: all three ranges 0. *)
Definition zero_variation : StrokeProcessor.VariationConfig :=
  StrokeProcessor.mkVariationConfig (Some (Fin 0)) (Some (Fin 0)) (Some (Fin 0)).

(** Every coordinate of the stroke set is a finite number. *)
Definition finite_point (p : Point.t) : Prop :=
  JS.finite (Point.x p) /\ JS.finite (Point.y p).

Definition finite_points (strokes : list Stroke) : Prop :=
  Forall (fun s => Forall finite_point (points s)) strokes.

(** The running bounds of [calculateBounds]: all four finite. *)
Definition acc_finite (acc : StrokeProcessor.bounds_acc) : Prop :=
  let '(a, b, c, d) := acc in
  JS.finite a /\ JS.finite b /\ JS.finite c /\ JS.finite d.

(** Each bound is finite or still at its initial infinity. *)
Definition acc_started (acc : StrokeProcessor.bounds_acc) : Prop :=
  let '(a, b, c, d) := acc in
  (a = PosInf \/ JS.finite a) /\ (b = PosInf \/ JS.finite b)
  /\ (c = NegInf \/ JS.finite c) /\ (d = NegInf \/ JS.finite d).

(** A document with the ligature "th" and the letter "t", and a
    configuration, to run the layout on. *)
Definition glyph (ps : list Point.t) (b : Bounds) : Character.t :=
  Character.mk [mkStroke ps] b (Fin 0) None None EmptyString.

Definition ligatureDoc : FontData.t :=
  FontData.mk
    (<["th"%string :=
         glyph [pt 0 0; pt 10 20; pt 20 0]
               (mkBounds (Fin 0) (Fin 0) (Fin 20) (Fin 20) (Fin 20) (Fin 20))]>
       (<["t"%string :=
            glyph [pt 0 0; pt 10 20]
                  (mkBounds (Fin 0) (Fin 0) (Fin 10) (Fin 20) (Fin 10) (Fin 20))]>
          ∅)).

Definition emptyDoc : FontData.t := FontData.mk ∅.

(** A stored glyph that is one dot. *)
Definition dotGlyph : Character.t :=
  glyph [pt 20 10]
        (mkBounds (Fin 20) (Fin 10) (Fin 20) (Fin 10) (Fin 0) (Fin 0)).

Definition sampleConfig : TextRenderer.RenderConfig :=
  TextRenderer.mkConfig (Fin 60) (Fin 5) (Fin 1.5) (Fin 2) true "#000000".

(** The keys gathered as missing are the looked-up keys that the document
    does not have, in order. *)
Definition missing_recorded (fontData : FontData.t)
    (st : TextRenderer.LineState.t) : Prop :=
  TextRenderer.LineState.missingChars st
  = List.filter (fun k => negb (FontData.hasCharacter fontData k))
                (TextRenderer.LineState.lookups st).

(** The input parses to an object that has a [characters] object: a value
    of JavaScript type object other than [null] (a JSON object or array). *)
Definition is_object (v : json) : Prop :=
  match v with
  | JObject _ | JArray _ => True
  | _ => False
  end.


(** Point [p] is at index [i] of the chain, strictly between its ends. *)
Definition interior (pts : list Point.t) (i : nat) (p : Point.t) : Prop :=
  (1 <= i <= length pts - 2)%nat /\ pts !! i = Some p.

(** The running bounds [acc] enclose point [p]. *)
Definition covers (acc : StrokeProcessor.bounds_acc) (p : Point.t) : Prop :=
  let '(a, b, c, d) := acc in
  JS.le a (Point.x p) = true /\ JS.le (Point.x p) c = true
  /\ JS.le b (Point.y p) = true /\ JS.le (Point.y p) d = true.

(** The box [bounds] encloses point [p]. *)
Definition inside (bounds : Bounds) (p : Point.t) : Prop :=
  JS.le (minX bounds) (Point.x p) = true
  /\ JS.le (Point.x p) (maxX bounds) = true
  /\ JS.le (minY bounds) (Point.y p) = true
  /\ JS.le (Point.y p) (maxY bounds) = true.

(** A property that is absent or a finite number. *)
Definition finite_if_present (o : option num) : Prop :=
  match o with
  | Some a => JS.finite a
  | None => True
  end.

(** Point [p] has finite coordinates in the box [[a, c] x [b, d]]. *)
Definition within (a b c d : Q) (p : Point.t) : Prop :=
  exists x y,
    Point.x p = Fin x /\ Point.y p = Fin y /\ a <= x <= c /\ b <= y <= d.

(** A JSON library of one saved text, to run the storage on: every value
    is written as the text [saved], which reads back as [document]. *)
Module OneDocument.

Definition document : json :=
  JObject
    [("metadata"%string,
      FontDataImport.fresh_metadata "2024-01-01" "2024-01-02");
     ("characters"%string, JObject [("a"%string, JObject [])])].

Definition reader : JSONLib :=
  {| JSON_parse := fun text =>
       if String.eqb text "saved" then Some document else None |}.

Definition writer : JSONWriter := {| JSON_stringify := fun _ => "saved"%string |}.

Definition stored : FontDataImport.t :=
  FontDataImport.mk
    (JObject [("a"%string, JObject [])])
    (FontDataImport.fresh_metadata "2024-01-01" "2024-01-02").

(** A storage without quota. *)
Definition setItem (storage : gmap string string) (key value : string)
  : option (gmap string string) :=
  Some (<[key := value]> storage).

End OneDocument.

(** The loop has not run past the end of the line, and has looked up at
    most one key per character read. *)
Definition in_line (text : string) (st : TextRenderer.LineState.t) : Prop :=
  (TextRenderer.LineState.i st <= String.length text)%nat
  /\ (length (TextRenderer.LineState.lookups st)
      <= TextRenderer.LineState.i st)%nat.

(** Nothing has been drawn, no random number used, no connector left. *)
Definition nothing_drawn (st : TextRenderer.LineState.t) : Prop :=
  TextRenderer.LineState.svgContent st = EmptyString
  /\ TextRenderer.LineState.draws st = 0%nat
  /\ TextRenderer.LineState.prevConnector st = None.

(** Stroke [s'] is what the simplification may leave of stroke [s]: a
    subsequence with the same two ends, of two points at least if [s] has
    two. *)
Definition thinned (s s' : Stroke) : Prop :=
  points s' `sublist_of` points s
  /\ head (points s') = head (points s)
  /\ last (points s') = last (points s)
  /\ (2 <= length (points s) -> 2 <= length (points s'))%nat.

(** The one advance of the cursor at the key looked up: [fontSize * 0.3]
    for the space, [fontSize * 0.5] for a key that the document does not
    have, and for a glyph of the document the bounding width of its varied
    strokes (0.6 when that width is 0 or no number) times [fontSize], plus
    [letterSpacing].  [draws] is the place in the stream of random numbers. *)
Definition one_advance `{M : MathLib} (fontData : FontData.t)
    (config : TextRenderer.RenderConfig) (random : nat -> num)
    (key : string) (draws : nat) : num :=
  if String.eqb key " " then JS.mul (TextRenderer.fontSize config) (Fin 0.3)
  else
    match FontData.getCharacter fontData key with
    | None => JS.mul (TextRenderer.fontSize config) (Fin 0.5)
    | Some charData =>
        let varied :=
          StrokeProcessor.applyVariation
            (StrokeProcessor.normalize
               (TextRenderer.deepCopy (Character.strokes charData))
               (Character.bounds charData) (Character.metrics charData))
            (TextRenderer.variationConfig config)
            (TextRenderer.next_draws random draws) in
        let glyphWidth :=
          JS.or (width (StrokeProcessor.calculateBounds varied)) (Fin 0.6) in
        JS.add (JS.mul glyphWidth (TextRenderer.fontSize config))
               (TextRenderer.letterSpacing config)
    end.

(** [Math.hypot] of two finite numbers is taken to be a finite number, not
    negative. *)
Definition hypot_sound (M : MathLib) : Prop :=
  forall a b : Q, exists r : Q, Math_hypot (Fin a) (Fin b) = Fin r /\ 0 <= r.

(** A point with finite coordinates and a finite time stamp. *)
Definition timed (p : Point.t) : Prop :=
  finite_point p /\ exists t : Q, Point.timestamp p = Some (Fin t).

(** * Properties *)

(** ** The order on numbers *)

Module JSFacts.

Lemma ge_zero_not_gt (t : num) :
  JS.ge t (Fin 0) = true -> JS.gt (Fin 0) t = false.
Proof.
  unfold JS.ge, JS.gt. destruct t as [| |q|]; simpl; try done.
  rewrite <- (Qcompare_antisym q 0). by destruct (q ?= 0).
Qed.

Lemma gt_le_trans (m t1 t2 : num) :
  JS.le t1 t2 = true -> JS.gt m t2 = true -> JS.gt m t1 = true.
Proof.
  unfold JS.le, JS.gt.
  destruct m as [| |m|], t1 as [| |a|], t2 as [| |b|]; simpl; try done.
  intros Hab Hmb.
  assert (a <= b) as H1 by (apply Qle_alt; by destruct (a ?= b)).
  assert (b < m) as H2.
  { apply Qgt_alt. by destruct (m ?= b). }
  assert ((m ?= a) = Gt) as ->; [|done].
  apply Qgt_alt. eapply Qle_lt_trans; eassumption.
Qed.

Lemma ge_le_trans (t1 t2 : num) :
  JS.ge t1 (Fin 0) = true -> JS.le t1 t2 = true -> JS.ge t2 (Fin 0) = true.
Proof.
  unfold JS.ge, JS.le.
  destruct t1 as [| |a|], t2 as [| |b|]; simpl; try done.
  intros H0 Hab.
  assert (0 <= a) as H1.
  { apply Qge_alt. by destruct (a ?= 0). }
  assert (a <= b) as H2 by (apply Qle_alt; by destruct (a ?= b)).
  assert (0 <= b) as H3 by (eapply Qle_trans; eassumption).
  apply Qge_alt in H3. by destruct (b ?= 0).
Qed.

Lemma div_fin (p q : Q) :
  Qeq_bool q 0 = false -> JS.div (Fin p) (Fin q) = Fin (p / q).
Proof. intros H. unfold JS.div. by rewrite H. Qed.

End JSFacts.

(** ** Douglas-Peucker simplification *)

Section Simplify.
Context {M : MathLib}.
Import StrokeProcessor.

(** The scan returns its initial pair or an index it visited. *)
Lemma farthest_fold (pts : list Point.t) (first lst : Point.t)
    (l : list nat) (acc : num * nat) :
  fold_left (farthest_step pts first lst) l acc = acc
  \/ In (snd (fold_left (farthest_step pts first lst) l acc)) l.
Proof.
  revert acc. induction l as [|i l IH]; intros acc; simpl; [by left|].
  destruct (IH (farthest_step pts first lst acc i)) as [H|H].
  - rewrite H. unfold farthest_step.
    destruct (pts !! i) as [p|]; [|by left].
    destruct (JS.gt _ _); [right; by left | by left].
  - right. by right.
Qed.

Lemma farthest_index (pts : list Point.t) (first lst : Point.t) :
  farthest pts first lst = (Fin 0, 0%nat)
  \/ (1 <= snd (farthest pts first lst) <= length pts - 2)%nat.
Proof.
  unfold farthest.
  destruct (farthest_fold pts first lst (seq 1 (length pts - 2)) (Fin 0, 0%nat))
    as [H|H]; [by left|right].
  apply in_seq in H. lia.
Qed.

(** With a tolerance [>= 0] a split index is an interior index. *)
Lemma farthest_split (pts : list Point.t) (first lst : Point.t)
    (tol maxDist : num) (maxIndex : nat) :
  JS.ge tol (Fin 0) = true ->
  farthest pts first lst = (maxDist, maxIndex) ->
  JS.gt maxDist tol = true ->
  (1 <= maxIndex <= length pts - 2)%nat.
Proof.
  intros Htol Hf Hgt.
  destruct (farthest_index pts first lst) as [H|H].
  - rewrite H in Hf. injection Hf as <- <-.
    rewrite (JSFacts.ge_zero_not_gt _ Htol) in Hgt. done.
  - by rewrite Hf in H.
Qed.

Lemma length_removelast {A} (l : list A) :
  length (removelast l) = (length l - 1)%nat.
Proof.
  induction l as [|a [|b l] IH]; simpl in *; [done..|]. lia.
Qed.

Lemma head_removelast_app {A} (l r : list A) :
  (2 <= length l)%nat -> head (removelast l ++ r) = head l.
Proof. destruct l as [|a [|b l]]; simpl; [lia..|done]. Qed.

Lemma last_app_nonempty {A} (l r : list A) :
  (1 <= length r)%nat -> last (l ++ r) = last r.
Proof.
  intros Hr. rewrite last_app.
  destruct (last r) eqn:E; [done|].
  apply last_None in E. subst r. simpl in Hr. lia.
Qed.

Lemma head_take {A} (l : list A) (n : nat) :
  (1 <= n)%nat -> head (take n l) = head l.
Proof. destruct n; [lia|]. by destruct l. Qed.

Lemma last_drop {A} (l : list A) (n : nat) :
  (n < length l)%nat -> last (drop n l) = last l.
Proof.
  intros Hn. rewrite !last_lookup, lookup_drop, length_drop.
  f_equal. lia.
Qed.

(** One unfolding of [simplify] on a chain of three points or more. *)
Lemma simplify_long (fuel : nat) (pts : list Point.t) (p0 lst : Point.t)
    (tol : num) :
  (3 <= length pts)%nat -> head pts = Some p0 -> last pts = Some lst ->
  simplify (S fuel) pts tol =
    let '(maxDist, maxIndex) := farthest pts p0 lst in
    if JS.gt maxDist tol then
      match simplify fuel (take (maxIndex + 1) pts) tol with
      | Some left' =>
          match simplify fuel (drop maxIndex pts) tol with
          | Some right' => Some (removelast left' ++ right')
          | None => None
          end
      | None => None
      end
    else Some [p0; lst].
Proof.
  destruct pts as [|q0 [|q1 [|q2 rest]]]; simpl length; try lia.
  intros _ [= ->] Hlast. cbn [simplify]. by rewrite Hlast.
Qed.

Lemma simplify_short (fuel : nat) (pts : list Point.t) (tol : num) :
  (length pts <= 2)%nat -> simplify (S fuel) pts tol = Some pts.
Proof.
  destruct pts as [|q0 [|q1 [|q2 rest]]]; simpl length; try lia; done.
Qed.

Lemma ends_of_long {A} (pts : list A) :
  (1 <= length pts)%nat -> exists p0 lst, head pts = Some p0 /\ last pts = Some lst.
Proof.
  intros H. destruct pts as [|a l]; [simpl in H; lia|].
  destruct (last (a :: l)) as [z|] eqn:E; [by exists a, z|].
  by apply last_None in E.
Qed.

(** What a call of [simplify] yields for a tolerance [>= 0]: it returns on
    fuel [>= length pts], keeps the two ends, never grows the chain and
    never shrinks it below two points. *)
Lemma simplify_returns (fuel : nat) :
  forall (pts : list Point.t) (tol : num),
    JS.ge tol (Fin 0) = true ->
    (1 <= fuel)%nat -> (length pts <= fuel)%nat ->
    exists out,
      simplify fuel pts tol = Some out
      /\ (length out <= length pts)%nat
      /\ (2 <= length pts -> 2 <= length out)%nat
      /\ head out = head pts
      /\ last out = last pts.
Proof.
  induction fuel as [|fuel IH]; intros pts tol Htol Hf Hlen; [lia|].
  destruct (le_lt_dec (length pts) 2) as [Hshort|Hlong].
  { rewrite simplify_short by done. by exists pts. }
  destruct (ends_of_long pts) as (p0 & lst & Hhd & Hlast); [lia|].
  rewrite (simplify_long fuel pts p0 lst) by (done || lia).
  destruct (farthest pts p0 lst) as [maxDist maxIndex] eqn:Hfar.
  destruct (JS.gt maxDist tol) eqn:Hgt.
  - pose proof (farthest_split _ _ _ _ _ _ Htol Hfar Hgt) as Hidx.
    destruct (IH (take (maxIndex + 1) pts) tol Htol)
      as (lf & El & Ll1 & Ll2 & Lh & Ll);
      [lia | rewrite length_take; lia |].
    destruct (IH (drop maxIndex pts) tol Htol)
      as (rt & Er & Lr1 & Lr2 & Rh & Rl);
      [lia | rewrite length_drop; lia |].
    rewrite El, Er. eexists; split; [reflexivity|].
    rewrite length_take in Ll1, Ll2. rewrite length_drop in Lr1, Lr2.
    assert (2 <= length lf)%nat by (apply Ll2; lia).
    assert (2 <= length rt)%nat by (apply Lr2; lia).
    rewrite length_app, length_removelast.
    repeat split; try lia.
    + rewrite head_removelast_app by done. rewrite Lh.
      apply head_take. lia.
    + rewrite last_app_nonempty by lia. rewrite Rl.
      apply last_drop. lia.
  - eexists; split; [reflexivity|]. simpl.
    rewrite Hhd, Hlast. repeat split; try lia; done.
Qed.

(** More fuel does not change a result. *)
Lemma simplify_fuel_mono (fuel : nat) :
  forall (pts out : list Point.t) (tol : num) (k : nat),
    simplify fuel pts tol = Some out ->
    simplify (fuel + k) pts tol = Some out.
Proof.
  induction fuel as [|fuel IH]; intros pts out tol k H; [done|].
  destruct (le_lt_dec (length pts) 2) as [Hshort|Hlong].
  { rewrite simplify_short in H by done.
    change (S fuel + k)%nat with (S (fuel + k)). by rewrite simplify_short. }
  destruct (ends_of_long pts) as (p0 & lst & Hhd & Hlast); [lia|].
  change (S fuel + k)%nat with (S (fuel + k)).
  rewrite (simplify_long fuel pts p0 lst) in H by (done || lia).
  rewrite (simplify_long (fuel + k) pts p0 lst) by (done || lia).
  destruct (farthest pts p0 lst) as [maxDist maxIndex].
  destruct (JS.gt maxDist tol); [|done].
  destruct (simplify fuel (take _ pts) tol) as [lf|] eqn:El; [|done].
  destruct (simplify fuel (drop _ pts) tol) as [rt|] eqn:Er; [|done].
  by rewrite (IH _ _ _ k El), (IH _ _ _ k Er).
Qed.

(** A larger tolerance never yields a longer chain. *)
Lemma simplify_monotone (t1 t2 : num) (fuel : nat) :
  JS.ge t1 (Fin 0) = true -> JS.le t1 t2 = true ->
  forall pts : list Point.t,
    (1 <= fuel)%nat -> (length pts <= fuel)%nat ->
    exists out1 out2,
      simplify fuel pts t1 = Some out1
      /\ simplify fuel pts t2 = Some out2
      /\ (length out2 <= length out1)%nat.
Proof.
  intros H1 H12.
  pose proof (JSFacts.ge_le_trans _ _ H1 H12) as H2.
  induction fuel as [|fuel IH]; intros pts Hf Hlen; [lia|].
  destruct (simplify_returns (S fuel) pts t1 H1 Hf Hlen)
    as (o1 & E1 & _ & Hmin & _).
  destruct (le_lt_dec (length pts) 2) as [Hshort|Hlong].
  { exists pts, pts. by rewrite !simplify_short. }
  destruct (ends_of_long pts) as (p0 & lst & Hhd & Hlast); [lia|].
  rewrite (simplify_long fuel pts p0 lst) in E1 by (done || lia).
  rewrite !(simplify_long fuel pts p0 lst) by (done || lia).
  destruct (farthest pts p0 lst) as [maxDist maxIndex] eqn:Hfar.
  destruct (JS.gt maxDist t2) eqn:Hgt2.
  - rewrite (JSFacts.gt_le_trans _ _ _ H12 Hgt2).
    pose proof (farthest_split _ _ _ _ _ _ H2 Hfar Hgt2) as Hidx.
    destruct (IH (take (maxIndex + 1) pts)) as (l1 & l2 & El1 & El2 & Hl);
      [lia | rewrite length_take; lia |].
    destruct (IH (drop maxIndex pts)) as (r1 & r2 & Er1 & Er2 & Hr);
      [lia | rewrite length_drop; lia |].
    rewrite El1, El2, Er1, Er2. do 2 eexists. do 2 (split; [reflexivity|]).
    rewrite !length_app, !length_removelast. lia.
  - exists o1, [p0; lst]. do 2 (split; [done|]).
    simpl. apply Hmin. lia.
Qed.

End Simplify.

(** C1.  For a tolerance [t >= 0], [simplifyStroke(points, t)] returns (on
    fuel of at least the number of points), the result is no longer than the
    input, and its first and last elements are the first and last points of
    the input. *)
Theorem simplifyStroke_keeps_ends `{M : MathLib}
    (points : list Point.t) (tolerance : num) (fuel : nat) :
  JS.ge tolerance (Fin 0) = true ->
  (length points <= fuel)%nat ->
  exists out,
    StrokeProcessor.simplifyStroke fuel points tolerance = Some out
    /\ (length out <= length points)%nat
    /\ head out = head points
    /\ last out = last points.
Proof.
  intros Htol Hfuel. unfold StrokeProcessor.simplifyStroke.
  destruct (length points <=? 2)%nat eqn:E; [by exists points|].
  apply Nat.leb_gt in E.
  destruct (simplify_returns fuel points tolerance Htol) as (out & ? & ? & _ & ? & ?);
    [lia..|]. by exists out.
Qed.

Lemma simplifyStroke_keeps_ends_witness :
  exists out,
    @StrokeProcessor.simplifyStroke ApproxMath.math 4 scenarioA (Fin 0.5)
      = Some out
    /\ (length out <= length scenarioA)%nat
    /\ head out = head scenarioA
    /\ last out = last scenarioA.
Proof.
  apply simplifyStroke_keeps_ends; [reflexivity | simpl; lia].
Defined.

(** C6.  For tolerances [0 <= t1 <= t2] and a fixed point sequence, both
    calls return and [simplifyStroke(points, t2)] is no longer than
    [simplifyStroke(points, t1)]. *)
Theorem simplifyStroke_monotone `{M : MathLib}
    (points : list Point.t) (t1 t2 : num) (fuel : nat) :
  JS.ge t1 (Fin 0) = true ->
  JS.le t1 t2 = true ->
  (length points <= fuel)%nat ->
  exists out1 out2,
    StrokeProcessor.simplifyStroke fuel points t1 = Some out1
    /\ StrokeProcessor.simplifyStroke fuel points t2 = Some out2
    /\ (length out2 <= length out1)%nat.
Proof.
  intros H1 H12 Hfuel. unfold StrokeProcessor.simplifyStroke.
  destruct (length points <=? 2)%nat eqn:E; [by exists points, points|].
  apply Nat.leb_gt in E.
  apply simplify_monotone; done || lia.
Qed.

Lemma simplifyStroke_monotone_witness :
  exists out1 out2,
    @StrokeProcessor.simplifyStroke ApproxMath.math 4 scenarioA (Fin 0.5)
      = Some out1
    /\ @StrokeProcessor.simplifyStroke ApproxMath.math 4 scenarioA (Fin 50)
      = Some out2
    /\ (length out2 <= length out1)%nat.
Proof.
  apply simplifyStroke_monotone; [reflexivity | reflexivity | simpl; lia].
Defined.

(** Scenario A evaluated: tolerance 0.5 keeps the four points, tolerance 50
    keeps the two ends. *)
Example scenarioA_fine :
  @StrokeProcessor.simplifyStroke ApproxMath.math 4 scenarioA (Fin 0.5)
  = Some scenarioA.
Proof. vm_compute. reflexivity. Qed.

Example scenarioA_coarse :
  @StrokeProcessor.simplifyStroke ApproxMath.math 4 scenarioA (Fin 50)
  = Some [pt 0 0; pt 20 10].
Proof. vm_compute. reflexivity. Qed.

(** Outside the contract: with a negative tolerance and collinear points the
    scan keeps index 0, the right-hand call is on the same chain again, and
    no amount of fuel makes the call return. *)
Lemma simplify_negative_tolerance_diverges `{M : MathLib}
    (fuel : nat) (p0 p1 p2 : Point.t) :
  StrokeProcessor.farthest [p0; p1; p2] p0 p2 = (Fin 0, 0%nat) ->
  StrokeProcessor.simplify fuel [p0; p1; p2] (Fin (-1)) = None.
Proof.
  intros Hfar. induction fuel as [|fuel IH]; [done|].
  rewrite (simplify_long fuel _ p0 p2) by (done || simpl; lia).
  rewrite Hfar. simpl JS.gt. cbv iota. simpl take. simpl drop.
  rewrite IH. by destruct (StrokeProcessor.simplify fuel [p0] _).
Qed.

Example negative_tolerance_collinear (fuel : nat) :
  @StrokeProcessor.simplify ApproxMath.math fuel [pt 0 0; pt 10 0; pt 20 0]
    (Fin (-1))
  = None.
Proof.
  apply simplify_negative_tolerance_diverges. vm_compute. reflexivity.
Qed.

(** ** Normalisation *)

Section Normalize.
Import StrokeProcessor.

Lemma normalize_unfold (strokes : list Stroke) (bounds : Bounds)
    (metrics : option Metrics) :
  normalize strokes bounds metrics =
    map (fun stroke =>
           {| points :=
                map (normalize_point
                       (minX bounds)
                       (JS.nullish (metrics ≫= ascender) (minY bounds))
                       (JS.or (JS.or (JS.or_undef (metrics ≫= emHeight)
                                                  (height bounds))
                                     (Fin 1))
                              (Fin 1)))
                    (points stroke) |})
        strokes.
Proof. by destruct strokes. Qed.

(** The chain [metrics?.emHeight || bounds.height || 1], then [|| 1]. *)
Lemma scale_chain (bounds : Bounds) (metrics : option Metrics) :
  JS.or (JS.or (JS.or_undef (metrics ≫= emHeight) (height bounds)) (Fin 1))
        (Fin 1)
  = spec_scale bounds metrics.
Proof.
  unfold spec_scale, JS.or_undef, JS.or.
  destruct (metrics ≫= emHeight) as [e|].
  - destruct (JS.truthy e) eqn:He; [by rewrite !He|].
    destruct (JS.truthy (height bounds)) eqn:Hh; [by rewrite !Hh|done].
  - destruct (JS.truthy (height bounds)) eqn:Hh; [by rewrite !Hh|done].
Qed.

End Normalize.

(** C3, as the code has it.  [normalize] sends every point to
    [x' = (x - bounds.minX)/scale], [y' = (y - originY)/scale], with the one
    scale of the specification on both axes; the origin [originY] is
    [metrics.ascender] when metrics are supplied and carry an ascender, and
    [bounds.minY] otherwise: without metrics, and also with metrics that
    have no ascender.  On scenario B the point (20,30) goes to (1/3, 1/2). *)
Theorem normalize_formula (strokes : list Stroke) (bounds : Bounds)
    (metrics : option Metrics) :
  let scale := spec_scale bounds metrics in
  let originY :=
    match metrics with
    | Some m =>
        match ascender m with
        | Some a => a
        | None => minY bounds
        end
    | None => minY bounds
    end in
  Forall2
    (fun stroke stroke' =>
       Forall2
         (fun point point' =>
            Point.x point' = JS.div (JS.sub (Point.x point) (minX bounds)) scale
            /\ Point.y point' = JS.div (JS.sub (Point.y point) originY) scale)
         (points stroke) (points stroke'))
    strokes (StrokeProcessor.normalize strokes bounds metrics)
  /\ exists point',
       StrokeProcessor.normalize [mkStroke [pt 20 30]] boundsB (Some metricsB)
         = [mkStroke [point']]
       /\ JS.same (Point.x point') (Fin (1 # 3))
       /\ JS.same (Point.y point') (Fin (1 # 2)).
Proof.
  intros scale originY. split.
  - rewrite normalize_unfold, scale_chain. fold scale.
    assert (JS.nullish (metrics ≫= ascender) (minY bounds) = originY) as ->.
    { subst originY. destruct metrics as [m|]; [|done]. simpl.
      by destruct (ascender m). }
    induction strokes as [|s strokes IH]; constructor; [|done].
    simpl. induction (points s) as [|p ps IHp]; constructor; done.
  - eexists. split; [reflexivity|]. split; reflexivity.
Qed.

(** C3, as the specification states it, fails: with metrics supplied that
    carry an [emHeight] and no ascender, the origin of the claim,
    [metrics.ascender], is [undefined] and [(y - undefined)/scale] is no
    number, while [normalize] takes [bounds.minY]: in a box with
    [minY = 10] and [emHeight = 60], the point (20,30) goes to
    [y' = (30 - 10)/60 = 1/3]. *)
Lemma normalize_metrics_without_ascender :
  let bounds := mkBounds (Fin 0) (Fin 10) (Fin 40) (Fin 70) (Fin 40) (Fin 60) in
  let metrics := Some (mkMetrics None None None None (Some (Fin 60)) None) in
  let claimed y :=
    JS.div (JS.sub y (JS.to_number (spec_originY bounds metrics)))
           (spec_scale bounds metrics) in
  spec_originY bounds metrics = None
  /\ claimed (Fin 30) = NaN
  /\ exists point',
       StrokeProcessor.normalize [mkStroke [pt 20 30]] bounds metrics
         = [mkStroke [point']]
       /\ JS.same (Point.y point') (Fin (1 # 3))
       /\ ~ JS.same (Point.y point') (claimed (Fin 30)).
Proof.
  split; [reflexivity|]. split; [reflexivity|].
  eexists. split; [reflexivity|]. split; [reflexivity|]. vm_compute. tauto.
Qed.

(** C10.  [normalize] and [applyVariation] keep the shape of the stroke set:
    as many strokes, and as many points in each stroke. *)
Theorem normalize_applyVariation_shape `{M : MathLib}
    (strokes : list Stroke) (bounds : Bounds) (metrics : option Metrics)
    (config : StrokeProcessor.VariationConfig)
    (random : StrokeProcessor.Draws) :
  let normalized := StrokeProcessor.normalize strokes bounds metrics in
  let varied := StrokeProcessor.applyVariation strokes config random in
  length normalized = length strokes
  /\ map (fun s => length (points s)) normalized
     = map (fun s => length (points s)) strokes
  /\ length varied = length strokes
  /\ map (fun s => length (points s)) varied
     = map (fun s => length (points s)) strokes.
Proof.
  intros normalized varied. subst normalized varied.
  rewrite normalize_unfold. unfold StrokeProcessor.applyVariation.
  rewrite !length_map, !map_map. simpl.
  repeat split; apply map_ext; intros s; by rewrite length_map.
Qed.

(** C4, at pressure 0.  [point.pressure || 0.5] takes a recorded pressure of
    0 for a missing one: the normalised point carries 0.5. *)
Theorem normalize_zero_pressure :
  StrokeProcessor.normalize
    [mkStroke [Point.mk (Fin 20) (Fin 30) (Some (Fin 0)) (Some (Fin 7))]]
    boundsB (Some metricsB)
  = [mkStroke [Point.mk (Fin (20 # 60)) (Fin (30 # 60))
                        (Some (Fin 0.5)) (Some (Fin 7))]].
Proof. reflexivity. Qed.

(** What does pass through: a pressure that is a number other than 0, and a
    timestamp that is a number. *)
Lemma normalize_point_passes (ox oy sc : num) (p : Point.t) (v : num) :
  (Point.pressure p = Some v -> JS.truthy v = true ->
   Point.pressure (StrokeProcessor.normalize_point ox oy sc p) = Some v)
  /\ (Point.timestamp p = Some v -> v <> NaN ->
      exists v', Point.timestamp (StrokeProcessor.normalize_point ox oy sc p)
                 = Some v' /\ JS.same v' v)
  /\ (Point.pressure p = None ->
      Point.pressure (StrokeProcessor.normalize_point ox oy sc p)
      = Some (Fin 0.5)).
Proof.
  unfold StrokeProcessor.normalize_point; simpl. repeat split.
  - intros -> Hv. simpl. unfold JS.or. by rewrite Hv.
  - intros -> Hv. simpl. unfold JS.or.
    destruct v as [| |q|]; simpl; try done; try (eexists; split; done).
    destruct (Qeq_bool q 0) eqn:E; simpl.
    + exists (Fin 0). split; [done|]. simpl. symmetry. by apply Qeq_bool_eq.
    + exists (Fin q). split; [done|]. simpl. reflexivity.
  - by intros ->.
Qed.

(** ** Variation *)

Section Variation.
Context {M : MathLib}.
Import StrokeProcessor.

Lemma acc_finite_started (acc : bounds_acc) :
  acc_finite acc -> acc_started acc.
Proof. destruct acc as [[[a b] c] d]. simpl. tauto. Qed.

Lemma min_finite (a : num) (q : Q) :
  a = PosInf \/ JS.finite a -> JS.finite (JS.min a (Fin q)).
Proof.
  intros [->|H]; [done|]. destruct a as [| |p|]; try done.
  unfold JS.min; simpl. by destruct (p ?= q).
Qed.

Lemma max_finite (a : num) (q : Q) :
  a = NegInf \/ JS.finite a -> JS.finite (JS.max a (Fin q)).
Proof.
  intros [->|H]; [done|]. destruct a as [| |p|]; try done.
  unfold JS.max; simpl. by destruct (p ?= q).
Qed.

Lemma bounds_point_finite (acc : bounds_acc) (p : Point.t) :
  acc_started acc -> finite_point p -> acc_finite (bounds_point acc p).
Proof.
  destruct acc as [[[a b] c] d], p as [[| |px|] [| |py|] pr ts];
    intros (Ha & Hb & Hc & Hd) [Hx Hy]; try done.
  simpl. auto using min_finite, max_finite.
Qed.

Lemma bounds_stroke_finite (ps : list Point.t) (acc : bounds_acc) :
  Forall finite_point ps ->
  (acc_finite acc -> acc_finite (fold_left bounds_point ps acc))
  /\ (acc_started acc -> acc_started (fold_left bounds_point ps acc))
  /\ (acc_started acc -> ps <> [] ->
      acc_finite (fold_left bounds_point ps acc)).
Proof.
  intros Hps. revert acc.
  induction Hps as [|p ps Hp Hps IH]; intros acc; simpl; [done|].
  destruct (IH (bounds_point acc p)) as (IH1 & IH2 & IH3).
  repeat split.
  - intros H. apply IH1, bounds_point_finite; [by apply acc_finite_started|done].
  - intros H. apply acc_finite_started, IH1. by apply bounds_point_finite.
  - intros H _. apply IH1. by apply bounds_point_finite.
Qed.

Lemma bounds_strokes_finite (strokes : list Stroke) (acc : bounds_acc) :
  finite_points strokes ->
  (acc_finite acc -> acc_finite (fold_left bounds_stroke strokes acc))
  /\ (acc_started acc ->
      (exists s, In s strokes /\ points s <> []) ->
      acc_finite (fold_left bounds_stroke strokes acc)).
Proof.
  intros Hs. revert acc.
  induction Hs as [|s strokes Hp Hs IH]; intros acc; simpl.
  { split; [done|]. by intros _ (s & [] & _). }
  destruct (bounds_stroke_finite (points s) acc Hp) as (P1 & P2 & P3).
  destruct (IH (bounds_stroke acc s)) as (IH1 & IH2).
  split.
  - intros H. by apply IH1, P1.
  - intros H (s' & [<-|Hin] & Hne).
    + by apply IH1, P3.
    + apply IH2; [by apply P2 | by exists s'].
Qed.

(** The bounding box of finite points, one of them at least, is finite. *)
Lemma calculateBounds_finite (strokes : list Stroke) :
  finite_points strokes ->
  (exists s, In s strokes /\ points s <> []) ->
  exists a b c d,
    minX (calculateBounds strokes) = Fin a
    /\ minY (calculateBounds strokes) = Fin b
    /\ maxX (calculateBounds strokes) = Fin c
    /\ maxY (calculateBounds strokes) = Fin d.
Proof.
  intros Hfin Hex.
  destruct (bounds_strokes_finite strokes (PosInf, PosInf, NegInf, NegInf) Hfin)
    as [_ H].
  specialize (H ltac:(simpl; auto) Hex).
  unfold calculateBounds.
  destruct strokes as [|s0 rest]; [by destruct Hex as (? & [] & _)|].
  destruct (fold_left _ _ _) as [[[a b] c] d].
  destruct a, b, c, d; simpl in H; try tauto.
  simpl. eauto 10.
Qed.

Lemma Forall2_map_in {A B} (R : A -> B -> Prop) (f : A -> B) (l : list A) :
  (forall a, In a l -> R a (f a)) -> Forall2 R l (map f l).
Proof.
  induction l as [|a l IH]; intros H; simpl; constructor.
  - apply H. by left.
  - apply IH. intros b Hb. apply H. by right.
Qed.

Context {L : MathLibLaws M}.

(** No rotation, unit scale, no offset: the point transform is the
    identity on coordinates. *)
Lemma vary_point_identity (r sc ox oy cx cy px py : Q)
    (pr ts : option num) :
  r == 0 -> sc == 1 -> ox == 0 -> oy == 0 ->
  let p' := vary_point (Fin r) (Fin sc) (Fin ox) (Fin oy) (Fin cx) (Fin cy)
                       (Point.mk (Fin px) (Fin py) pr ts) in
  JS.same (Point.x p') (Fin px) /\ JS.same (Point.y p') (Fin py).
Proof.
  intros Hr Hsc Hox Hoy. unfold vary_point.
  pose proof (Math_cos_0 r Hr) as Hc. pose proof (Math_sin_0 r Hr) as Hs.
  destruct (Math_cos (Fin r)) as [| |c|]; try done.
  destruct (Math_sin (Fin r)) as [| |s|]; try done.
  cbn in Hc, Hs. cbn -[Qplus Qmult Qopp].
  rewrite Hc, Hs, Hsc, Hox, Hoy. split; ring.
Qed.

End Variation.

(** C5.  With the three ranges at 0, [applyVariation] returns every point
    at its input coordinates, whatever the four random draws are (exact
    arithmetic; the coordinates are finite numbers). *)
Theorem applyVariation_identity {M : MathLib} {L : MathLibLaws M}
    (strokes : list Stroke) (q1 q2 q3 q4 : Q) :
  finite_points strokes ->
  Forall2
    (fun stroke stroke' =>
       Forall2
         (fun point point' =>
            JS.same (Point.x point') (Point.x point)
            /\ JS.same (Point.y point') (Point.y point))
         (points stroke) (points stroke'))
    strokes
    (StrokeProcessor.applyVariation strokes zero_variation
       (StrokeProcessor.mkDraws (Fin q1) (Fin q2) (Fin q3) (Fin q4))).
Proof.
  intros Hfin. unfold StrokeProcessor.applyVariation.
  apply Forall2_map_in. intros s Hs. cbn [points].
  apply Forall2_map_in. intros p Hp.
  destruct (calculateBounds_finite strokes Hfin) as (a & b & c & d & -> & -> & -> & ->).
  { exists s. split; [done|]. by destruct (points s). }
  assert (finite_point p) as [Hx Hy].
  { unfold finite_points in Hfin. rewrite Forall_forall in Hfin.
    specialize (Hfin s ltac:(by apply list_elem_of_In)).
    rewrite Forall_forall in Hfin. apply Hfin. by apply list_elem_of_In. }
  destruct p as [[| |px|] [| |py|] pr ts]; try done.
  unfold JS.PI. rewrite !JSFacts.div_fin by reflexivity.
  cbn [JS.nullish zero_variation StrokeProcessor.positionJitter
       StrokeProcessor.rotationRange StrokeProcessor.scaleRange
       StrokeProcessor.draw_rotation StrokeProcessor.draw_scale
       StrokeProcessor.draw_offsetX StrokeProcessor.draw_offsetY
       StrokeProcessor.centred JS.mul JS.sub JS.add JS.neg].
  apply vary_point_identity; ring.
Qed.

(** The stand-in satisfies the two laws. *)
Lemma ApproxMath_laws : MathLibLaws ApproxMath.math.
Proof.
  split; intros q.
  - intros Hq. simpl. rewrite Qred_correct. unfold ApproxMath.cos_poly.
    cbv zeta. rewrite Hq. reflexivity.
  - intros Hq. simpl. rewrite Qred_correct. unfold ApproxMath.sin_poly.
    cbv zeta. rewrite Hq. reflexivity.
Qed.

Lemma applyVariation_identity_witness :
  Forall2
    (fun stroke stroke' =>
       Forall2
         (fun point point' =>
            JS.same (Point.x point') (Point.x point)
            /\ JS.same (Point.y point') (Point.y point))
         (points stroke) (points stroke'))
    [mkStroke scenarioA; mkStroke [pt 3 4]]
    (@StrokeProcessor.applyVariation ApproxMath.math
       [mkStroke scenarioA; mkStroke [pt 3 4]] zero_variation
       (StrokeProcessor.mkDraws (Fin 0.1) (Fin 0.9) (Fin 0.25) (Fin 0.75))).
Proof.
  apply (@applyVariation_identity ApproxMath.math ApproxMath_laws).
  repeat constructor.
Defined.

(** ** Line layout *)

Section Layout.
Context {M : MathLib} {N : NumberLib}.
Variable fontData : FontData.t.
Variable config : TextRenderer.RenderConfig.
Variable random : nat -> num.
Import TextRenderer.

Local Abbreviation iteration := (renderLine_iteration fontData config random).
Local Abbreviation loop := (renderLine_loop fontData config random).

Lemma usePair_true (text : string) (i : nat) :
  usePair fontData text i = true <->
  (i + 1 < String.length text)%nat
  /\ is_Some (FontData.characters fontData !! pairKey text i).
Proof.
  unfold usePair, FontData.hasCharacter.
  rewrite andb_true_iff, Nat.ltb_lt, bool_decide_eq_true. done.
Qed.

Lemma step_positive (text : string) (i : nat) :
  (1 <= step fontData text i <= 2)%nat.
Proof. unfold step. destruct (usePair _ _ _); lia. Qed.

(** A turn of the loop moves the index by [step], whatever the branch. *)
Lemma iteration_index (text : string) (startY : num) (st : LineState.t) :
  LineState.i (iteration text startY st)
  = (LineState.i st + step fontData text (LineState.i st))%nat.
Proof.
  destruct st as [i x svg missing prev draws lookups].
  unfold renderLine_iteration. cbn [LineState.i].
  destruct (String.eqb _ _); [done|].
  destruct (FontData.getCharacter _ _); [|done].
  by destruct (placeGlyph _ _ _ _ _) as [[? ?] ?].
Qed.

(** A key other than the space is looked up, once. *)
Lemma iteration_lookup (text : string) (startY : num) (st : LineState.t) :
  let key := glyphKey fontData text (LineState.i st) in
  LineState.lookups (iteration text startY st)
  = if String.eqb key " " then LineState.lookups st
    else LineState.lookups st ++ [key].
Proof.
  destruct st as [i x svg missing prev draws lookups].
  unfold renderLine_iteration. cbn [LineState.i LineState.lookups].
  destruct (String.eqb _ _); [done|].
  destruct (FontData.getCharacter _ _); [|done].
  by destruct (placeGlyph _ _ _ _ _) as [[? ?] ?].
Qed.

(** The loop ends: fuel for the characters left is enough. *)
Lemma loop_returns (text : string) (startY : num) (fuel : nat) :
  forall st,
    (String.length text - LineState.i st <= fuel)%nat ->
    exists final,
      loop fuel text startY st = Some final
      /\ (String.length text <= LineState.i final)%nat.
Proof.
  induction fuel as [|fuel IH]; intros st Hfuel; simpl.
  - destruct (LineState.i st <? String.length text)%nat eqn:E.
    + apply Nat.ltb_lt in E. lia.
    + apply Nat.ltb_ge in E. by exists st.
  - destruct (LineState.i st <? String.length text)%nat eqn:E.
    + apply IH. rewrite iteration_index.
      pose proof (step_positive text (LineState.i st)). lia.
    + apply Nat.ltb_ge in E. by exists st.
Qed.

(** What every turn keeps, the loop keeps. *)
Lemma loop_invariant (P : LineState.t -> Prop) (text : string) (startY : num) :
  (forall st, (LineState.i st < String.length text)%nat ->
              P st -> P (iteration text startY st)) ->
  forall fuel st final,
    P st -> loop fuel text startY st = Some final -> P final.
Proof.
  intros Hstep. induction fuel as [|fuel IH]; intros st final HP; simpl;
    destruct (LineState.i st <? String.length text)%nat eqn:E;
    try done; try (by intros [= <-]).
  apply Nat.ltb_lt in E. apply IH. by apply Hstep.
Qed.

Lemma hasCharacter_getCharacter (k : string) :
  FontData.hasCharacter fontData k
  = match FontData.getCharacter fontData k with
    | Some _ => true
    | None => false
    end.
Proof.
  unfold FontData.hasCharacter, FontData.getCharacter.
  destruct (FontData.characters fontData !! k) eqn:E.
  - apply bool_decide_eq_true. by eexists.
  - apply bool_decide_eq_false. by intros [? ?].
Qed.

Lemma iteration_missing_recorded (text : string) (startY : num)
    (st : LineState.t) :
  missing_recorded fontData st
  -> missing_recorded fontData (iteration text startY st).
Proof.
  destruct st as [i x svg missing prev draws lookups].
  unfold missing_recorded, renderLine_iteration.
  cbn [LineState.missingChars LineState.lookups]. intros ->.
  destruct (String.eqb _ _); [done|].
  destruct (FontData.getCharacter _ _) eqn:E.
  - destruct (placeGlyph _ _ _ _ _) as [[? ?] ?].
    cbn [LineState.missingChars LineState.lookups].
    rewrite List.filter_app. simpl.
    rewrite hasCharacter_getCharacter, E. simpl. by rewrite app_nil_r.
  - cbn [LineState.missingChars LineState.lookups].
    rewrite List.filter_app. simpl.
    by rewrite hasCharacter_getCharacter, E.
Qed.

(** A key that the document does not have: the cursor moves by
    [fontSize * 0.5], the key is recorded, nothing else changes, and the
    index moves on. *)
Lemma iteration_missing (text : string) (startY : num) (st : LineState.t) :
  let key := glyphKey fontData text (LineState.i st) in
  String.eqb key " " = false ->
  FontData.getCharacter fontData key = None ->
  iteration text startY st
  = LineState.mk
      (LineState.i st + step fontData text (LineState.i st))
      (JS.add (LineState.xPosition st) (JS.mul (fontSize config) (Fin 0.5)))
      (LineState.svgContent st)
      (LineState.missingChars st ++ [key])
      (LineState.prevConnector st)
      (LineState.draws st)
      (LineState.lookups st ++ [key]).
Proof.
  destruct st as [i x svg missing prev draws lookups].
  unfold renderLine_iteration. cbn. by intros -> ->.
Qed.

End Layout.

Section LayoutClaims.
Context {M : MathLib} {N : NumberLib}.
Variable fontData : FontData.t.
Variable config : TextRenderer.RenderConfig.
Variable random : nat -> num.
Import TextRenderer.

(** A key that the document has: one call of [placeGlyph]. *)
Lemma iteration_present (text : string) (startY : num) (st : LineState.t)
    (charData : Character.t) (markup : string) (advance : num)
    (prev' : option PrevConnector) :
  let key := glyphKey fontData text (LineState.i st) in
  String.eqb key " " = false ->
  FontData.getCharacter fontData key = Some charData ->
  placeGlyph config random charData startY st = (markup, advance, prev') ->
  renderLine_iteration fontData config random text startY st
  = LineState.mk
      (LineState.i st + step fontData text (LineState.i st))
      (JS.add (LineState.xPosition st) advance)
      (LineState.svgContent st +:+ markup)
      (LineState.missingChars st)
      prev'
      (LineState.draws st + 4)
      (LineState.lookups st ++ [key]).
Proof.
  destruct st as [i x svg missing prev draws lookups].
  unfold renderLine_iteration. cbn [LineState.i]. by intros -> -> ->.
Qed.

(** The line "th" with the ligature stored: one turn, one glyph. *)
Lemma ligature_line (startX startY : num) :
  is_Some (FontData.characters fontData !! "th"%string) ->
  exists charData markup advance prev',
    FontData.getCharacter fontData "th" = Some charData
    /\ placeGlyph config random charData startY (initial startX)
       = (markup, advance, prev')
    /\ advance = one_advance fontData config random "th" 0
    /\ renderLine_loop fontData config random 2 "th" startY (initial startX)
       = Some (LineState.mk 2 (JS.add startX advance) markup [] prev' 4
                            ["th"%string]).
Proof.
  intros [charData Hth].
  destruct (placeGlyph config random charData startY (initial startX))
    as [[markup advance] prev'] eqn:Hplace.
  exists charData, markup, advance, prev'. do 2 (split; [done|]).
  split.
  { assert (advance
            = snd (fst (placeGlyph config random charData startY
                          (initial startX)))) as ->
      by (by rewrite Hplace).
    unfold one_advance. change (String.eqb "th" " ") with false. cbv iota.
    unfold FontData.getCharacter. rewrite Hth. reflexivity. }
  assert (usePair fontData "th" 0 = true) as Hpair.
  { apply usePair_true. split; [simpl; lia | by eexists]. }
  assert (glyphKey fontData "th" 0 = "th"%string) as Hkey
    by (unfold glyphKey; by rewrite Hpair).
  assert (step fontData "th" 0 = 2%nat) as Hstep
    by (unfold step; by rewrite Hpair).
  cbn [renderLine_loop initial LineState.i String.length Nat.ltb Nat.leb].
  rewrite (iteration_present "th" startY (initial startX)
             charData markup advance prev');
    cbn [initial LineState.i]; rewrite ?Hkey; try done.
  rewrite Hstep. reflexivity.
Qed.

(** Every turn moves the cursor by the one advance of its key. *)
Lemma iteration_one_advance (text : string) (startY : num) (st : LineState.t) :
  LineState.xPosition (renderLine_iteration fontData config random text startY st)
  = JS.add (LineState.xPosition st)
           (one_advance fontData config random
              (glyphKey fontData text (LineState.i st)) (LineState.draws st)).
Proof.
  destruct st as [i x svg missing prev draws lookups].
  unfold renderLine_iteration, one_advance.
  cbn [LineState.i LineState.xPosition LineState.draws].
  destruct (String.eqb (glyphKey fontData text i) " "); [reflexivity|].
  destruct (FontData.getCharacter fontData (glyphKey fontData text i));
    reflexivity.
Qed.

End LayoutClaims.

(** C8.  At a position [i] of the line: if two characters are left and the
    pair is a key of the document, the pair is the glyph key and the index
    moves by 2, else the single character is the key and the index moves by
    1; either way the key (unless it is the space) is looked up once and the
    cursor is moved once, by the advance of that one key: for a pair, the
    width of the pair's own glyph times [fontSize] plus one
    [letterSpacing].  On "th" with the ligature "th" stored the whole layout
    is one turn: one lookup, of "th", and the one advance of "th". *)
Theorem renderLine_longest_match `{M : MathLib} `{N : NumberLib}
    (fontData : FontData.t) (config : TextRenderer.RenderConfig)
    (random : nat -> num) (text : string) (startY : num)
    (st : TextRenderer.LineState.t) :
  (TextRenderer.LineState.i st < String.length text)%nat ->
  let i := TextRenderer.LineState.i st in
  let st' := TextRenderer.renderLine_iteration fontData config random
               text startY st in
  let key := TextRenderer.glyphKey fontData text i in
  let pair := String.substring i 2 text in
  let ligature :=
    (i + 1 < String.length text)%nat
    /\ is_Some (FontData.characters fontData !! pair) in
  (ligature -> key = pair /\ TextRenderer.LineState.i st' = (i + 2)%nat)
  /\ (~ ligature ->
      key = String.substring i 1 text
      /\ TextRenderer.LineState.i st' = (i + 1)%nat)
  /\ TextRenderer.LineState.lookups st'
     = (if String.eqb key " " then TextRenderer.LineState.lookups st
        else TextRenderer.LineState.lookups st ++ [key])
  /\ TextRenderer.LineState.xPosition st'
     = JS.add (TextRenderer.LineState.xPosition st)
              (one_advance fontData config random key
                 (TextRenderer.LineState.draws st))
  /\ (forall startX,
        is_Some (FontData.characters fontData !! "th"%string) ->
        exists charData markup advance prev',
          FontData.getCharacter fontData "th" = Some charData
          /\ TextRenderer.placeGlyph config random charData startY
               (TextRenderer.initial startX)
             = (markup, advance, prev')
          /\ advance = one_advance fontData config random "th" 0
          /\ TextRenderer.renderLine_loop fontData config random 2 "th" startY
               (TextRenderer.initial startX)
             = Some (TextRenderer.LineState.mk 2 (JS.add startX advance)
                       markup [] prev' 4 ["th"%string])).
Proof.
  intros Hi i st' key pair ligature.
  pose proof (usePair_true fontData text i) as Hpair.
  fold pair in Hpair. fold ligature in Hpair.
  subst st'. rewrite iteration_index. fold i.
  subst key. unfold TextRenderer.glyphKey, TextRenderer.step.
  split; [|split; [|split; [|split]]].
  - intros Hlig. by rewrite (proj2 Hpair Hlig).
  - intros Hnot.
    destruct (TextRenderer.usePair fontData text i); [|done].
    destruct Hnot. by apply Hpair.
  - apply iteration_lookup.
  - apply iteration_one_advance.
  - intros startX. apply ligature_line.
Qed.

Lemma renderLine_longest_match_witness :
  TextRenderer.LineState.i
    (@TextRenderer.renderLine_iteration ApproxMath.math ApproxMath.number
       ligatureDoc sampleConfig ApproxMath.steady "th" (Fin 90)
       (TextRenderer.initial (Fin 50)))
  = 2%nat.
Proof.
  destruct (@renderLine_longest_match ApproxMath.math ApproxMath.number
              ligatureDoc sampleConfig ApproxMath.steady "th" (Fin 90)
              (TextRenderer.initial (Fin 50)))
    as [Hpair _]; [simpl; lia|].
  apply Hpair. split; [simpl; lia|]. vm_compute. eexists. reflexivity.
Defined.

(** C2, as the code has it.  [renderLine] returns (the loop ends) an object
    of the markup and the advanced width.  The keys gathered as missing are
    exactly the looked-up keys that the document does not have; they go to
    a console warning and are no part of the returned object.  A missing key
    is no error: the cursor moves by [fontSize * 0.5], nothing is drawn, and
    the layout goes on at the next position. *)
Theorem renderLine_reports_missing `{M : MathLib} `{N : NumberLib}
    (fontData : FontData.t) (config : TextRenderer.RenderConfig)
    (random : nat -> num) (text : string) (startX startY : num) :
  exists final,
    TextRenderer.renderLine_loop fontData config random (String.length text)
      text startY (TextRenderer.initial startX) = Some final
    /\ TextRenderer.renderLine fontData config random text startX startY
       = Some (TextRenderer.LineResult.mk
                 (TextRenderer.LineState.svgContent final)
                 (JS.sub (TextRenderer.LineState.xPosition final) startX),
               TextRenderer.warning (TextRenderer.LineState.missingChars final))
    /\ TextRenderer.LineState.missingChars final
       = List.filter (fun k => negb (FontData.hasCharacter fontData k))
                     (TextRenderer.LineState.lookups final)
    /\ forall st,
         let i := TextRenderer.LineState.i st in
         let key := TextRenderer.glyphKey fontData text i in
         String.eqb key " " = false ->
         FontData.getCharacter fontData key = None ->
         TextRenderer.renderLine_iteration fontData config random text startY st
         = TextRenderer.LineState.mk
             (i + TextRenderer.step fontData text i)
             (JS.add (TextRenderer.LineState.xPosition st)
                     (JS.mul (TextRenderer.fontSize config) (Fin 0.5)))
             (TextRenderer.LineState.svgContent st)
             (TextRenderer.LineState.missingChars st ++ [key])
             (TextRenderer.LineState.prevConnector st)
             (TextRenderer.LineState.draws st)
             (TextRenderer.LineState.lookups st ++ [key]).
Proof.
  destruct (loop_returns fontData config random text startY (String.length text)
              (TextRenderer.initial startX)) as (final & Hloop & _);
    [simpl; lia|].
  exists final. split; [done|]. split; [|split].
  - unfold TextRenderer.renderLine. by rewrite Hloop.
  - apply (loop_invariant fontData config random
             (missing_recorded fontData) text startY
             (fun st _ => iteration_missing_recorded fontData config random
                            text startY st)
             (String.length text) (TextRenderer.initial startX) final);
      [reflexivity | exact Hloop].
  - intros st. apply iteration_missing.
Qed.

(** C2, as the specification states it, fails: the lines "a" and "b" on an
    empty document return the same object (no markup, the same width), yet
    their missing keys differ; the returned object does not carry them. *)
Lemma renderLine_result_lacks_missing_keys :
  let run text :=
    @TextRenderer.renderLine ApproxMath.math ApproxMath.number emptyDoc
      sampleConfig ApproxMath.steady text (Fin 50) (Fin 90) in
  let missing text :=
    TextRenderer.LineState.missingChars <$>
      @TextRenderer.renderLine_loop ApproxMath.math ApproxMath.number emptyDoc
        sampleConfig ApproxMath.steady (String.length text) text (Fin 90)
        (TextRenderer.initial (Fin 50)) in
  fst <$> run "a" = fst <$> run "b"
  /\ (fun r => TextRenderer.LineResult.svg (fst r)) <$> run "a"
     = Some EmptyString
  /\ missing "a" = Some ["a"%string]
  /\ missing "b" = Some ["b"%string].
Proof. vm_compute. repeat split; reflexivity. Qed.

(** ** Single-point strokes *)

Lemma append_empty_r (s : string) : s +:+ EmptyString = s.
Proof.
  induction s as [|c s IH]; [done|].
  change (String c (s +:+ EmptyString) = String c s). by f_equal.
Qed.

(** C9, as the code has it.  For a stroke of one point the path encoder
    gives the move command alone (no curve, no line), and [renderCharacter]
    skips the stroke and puts nothing in its place: for the same position,
    size and character data, the markup it returns for a list of strokes
    with a stroke of one point in it is the markup it returns for the list
    with that stroke taken out. *)
Theorem renderCharacter_drops_single_point `{N : NumberLib}
    (config : TextRenderer.RenderConfig) (before after : list Stroke)
    (p : Point.t) (x baselineY size : num) (charData : Character.t) :
  TextRenderer.generatePathData [p] size
  = "M " +:+ TextRenderer.coordinates p size
  /\ TextRenderer.renderStroke config size (mkStroke [p]) = EmptyString
  /\ TextRenderer.renderCharacter config (before ++ mkStroke [p] :: after)
       x baselineY size charData
     = TextRenderer.renderCharacter config (before ++ after)
         x baselineY size charData.
Proof.
  split; [|split].
  - unfold TextRenderer.generatePathData.
    cbn [length Nat.ltb Nat.leb TextRenderer.lines]. apply append_empty_r.
  - reflexivity.
  - unfold TextRenderer.renderCharacter.
    rewrite !fold_left_app. simpl. by rewrite append_empty_r.
Qed.

(** C9, as the specification states it, fails: the glyph of a lone dot
    renders as an empty group, the markup of a glyph with no stroke at all;
    no dot is drawn. *)
Lemma renderCharacter_single_point_no_dot :
  let render strokes :=
    @TextRenderer.renderCharacter ApproxMath.number sampleConfig strokes
      (Fin 50) (Fin 90) (Fin 60) dotGlyph in
  render [mkStroke [pt (1 # 2) (1 # 5)]] = render []
  /\ render [mkStroke [pt (1 # 2) (1 # 5)]]
     = ("  <g transform=" +:+ TextRenderer.dq +:+ "translate(50.00, 48.00)"
        +:+ TextRenderer.dq +:+ ">" +:+ TextRenderer.nl +:+ "  </g>"
        +:+ TextRenderer.nl)%string.
Proof. vm_compute. split; reflexivity. Qed.

(** ** Import *)

(** The guard of the import rejects exactly what is no object. *)
Lemma rejected_iff (chars : json) :
  negb (FontDataImport.truthy chars) || negb (FontDataImport.typeof_object chars)
  = false
  <-> is_object chars.
Proof.
  destruct chars as [|b|n|s|items|fields]; simpl;
    rewrite ?orb_true_r; split; done.
Qed.



(** * Further properties of the code *)

(** ** More on the order of numbers *)

Module JSOrder.

(** Case analysis on the numbers at hand, then on the rational comparisons
    left, closed by linear arithmetic. *)
Ltac cases :=
  unfold JS.gt, JS.lt, JS.ge, JS.le, JS.eqb, JS.min, JS.max, JS.compare in *;
  repeat match goal with
         | x : num |- _ => destruct x
         end;
  simpl in *; try done;
  repeat match goal with
         | H : context [?a ?= ?b] |- _ => destruct (Qcompare_spec a b)
         | |- context [?a ?= ?b] => destruct (Qcompare_spec a b)
         end;
  simpl in *; try done; try lra; try (exfalso; lra).

Lemma gt_not_nan (a b : num) : JS.gt a b = true -> a <> NaN /\ b <> NaN.
Proof. intros H. split; intros ->; cases. Qed.

(** [d'] is not above [acc] and [d] is: then [d'] is not above [d]. *)
Lemma not_gt_raise (d d' acc : num) :
  JS.gt d acc = true -> JS.gt d' acc = false -> JS.gt d' d = false.
Proof. intros H1 H2. cases. Qed.

(** [d] is not above [m] but is above [t]: then [m] is above [t]. *)
Lemma gt_through (d m t : num) :
  m <> NaN -> JS.gt d m = false -> JS.gt d t = true -> JS.gt m t = true.
Proof. intros Hm H1 H2. cases. Qed.

Lemma gt_irrefl (a : num) : JS.gt a a = false.
Proof. cases. Qed.

Lemma le_trans (a b c : num) :
  JS.le a b = true -> JS.le b c = true -> JS.le a c = true.
Proof. intros H1 H2. cases. Qed.

Lemma le_refl_finite (q : Q) : JS.le (Fin q) (Fin q) = true.
Proof. cases. Qed.

Lemma min_lower (a : num) (q : Q) :
  a = PosInf \/ JS.finite a ->
  JS.le (JS.min a (Fin q)) a = true /\ JS.le (JS.min a (Fin q)) (Fin q) = true.
Proof. intros [->|H]; split; cases. Qed.

Lemma max_upper (a : num) (q : Q) :
  a = NegInf \/ JS.finite a ->
  JS.le a (JS.max a (Fin q)) = true /\ JS.le (Fin q) (JS.max a (Fin q)) = true.
Proof. intros [->|H]; split; cases. Qed.

Lemma le_finite (p q : Q) : JS.le (Fin p) (Fin q) = true <-> p <= q.
Proof. split; intros H; cases. Qed.

End JSOrder.

(** ** More on the simplification *)

Section SimplifyMore.
Context {M : MathLib}.
Import StrokeProcessor.

Lemma removelast_sublist {A} (l k : list A) (x : A) :
  l `sublist_of` k ++ [x] -> removelast l `sublist_of` k.
Proof.
  intros H. apply sublist_app_r in H as (l1 & l2 & -> & H1 & H2).
  destruct l2 as [|y l2].
  - rewrite app_nil_r. etrans; [|exact H1].
    clear. induction l1 as [|a [|b l1] IH]; simpl; [done| |].
    + apply sublist_nil_l.
    + by apply sublist_skip.
  - assert (l2 = []) as ->.
    { apply sublist_length in H2. simpl in H2. destruct l2; [done|simpl in H2; lia]. }
    by rewrite removelast_last.
Qed.

(** A returning call keeps points of the chain, in their order. *)
Lemma simplify_sublist (fuel : nat) :
  forall (pts out : list Point.t) (tol : num),
    simplify fuel pts tol = Some out -> out `sublist_of` pts.
Proof.
  induction fuel as [|fuel IH]; intros pts out tol H; [done|].
  destruct (le_lt_dec (length pts) 2) as [Hshort|Hlong].
  { rewrite simplify_short in H by done. by injection H as <-. }
  destruct (ends_of_long pts) as (p0 & lst & Hhd & Hlast); [lia|].
  rewrite (simplify_long fuel pts p0 lst) in H by (done || lia).
  destruct (farthest pts p0 lst) as [maxDist maxIndex] eqn:Hfar.
  destruct (JS.gt maxDist tol).
  - destruct (simplify fuel (take _ pts) tol) as [lf|] eqn:El; [|done].
    destruct (simplify fuel (drop _ pts) tol) as [rt|] eqn:Er; [|done].
    injection H as <-.
    apply IH in El. apply IH in Er.
    assert (maxIndex < length pts)%nat as Hidx.
    { destruct (farthest_index pts p0 lst) as [E|E]; rewrite Hfar in E.
      - injection E as _ ->. lia.
      - simpl in E. lia. }
    destruct (lookup_lt_is_Some_2 pts maxIndex Hidx) as [pm Hpm].
    assert (removelast lf ++ rt
            `sublist_of` take maxIndex pts ++ drop maxIndex pts) as Hs.
    { apply sublist_app; [|done].
      apply (removelast_sublist _ _ pm).
      replace (maxIndex + 1)%nat with (S maxIndex) in El by lia.
      by rewrite (take_S_r _ _ _ Hpm) in El. }
    by rewrite take_drop in Hs.
  - injection H as <-.
    apply head_Some in Hhd as [rest ->].
    apply sublist_skip. apply last_Some in Hlast as [l' Hl'].
    destruct l' as [|a l']; simpl in Hl'; injection Hl' as _ ->.
    + simpl in Hlong. lia.
    + by apply sublist_inserts_l.
Qed.

(** The distance the scan ends on is 0 or the distance of an interior
    point, it is a number, and no interior point is above it. *)

Lemma farthest_fold_max (pts : list Point.t) (first lst : Point.t)
    (l : list nat) (acc : num * nat) :
  fst acc <> NaN ->
  let r := fold_left (farthest_step pts first lst) l acc in
  fst r <> NaN
  /\ (fst r = fst acc
      \/ exists i p, In i l /\ pts !! i = Some p
                     /\ fst r = perpendicularDistance p first lst)
  /\ (forall d, JS.gt d (fst acc) = false -> JS.gt d (fst r) = false)
  /\ (forall i p, In i l -> pts !! i = Some p ->
        JS.gt (perpendicularDistance p first lst) (fst r) = false).
Proof.
  revert acc. induction l as [|i l IH]; intros acc Hacc; simpl.
  { repeat split; try done. by left. }
  set (acc' := farthest_step pts first lst acc i).
  assert (fst acc' <> NaN
          /\ (fst acc' = fst acc
              \/ exists p, pts !! i = Some p
                           /\ fst acc' = perpendicularDistance p first lst)
          /\ (forall d, JS.gt d (fst acc) = false -> JS.gt d (fst acc') = false)
          /\ (forall p, pts !! i = Some p ->
                JS.gt (perpendicularDistance p first lst) (fst acc') = false))
    as (N' & O' & K' & S').
  { subst acc'. unfold farthest_step.
    destruct (pts !! i) as [p|]; [|repeat split; try done; by left].
    destruct (JS.gt (perpendicularDistance p first lst) (fst acc)) eqn:E; simpl.
    - repeat split.
      + by apply JSOrder.gt_not_nan in E as [? _].
      + right. by exists p.
      + intros d Hd. by apply (JSOrder.not_gt_raise _ _ _ E).
      + intros ? [= <-]. apply JSOrder.gt_irrefl.
    - repeat split; try done; [by left|]. by intros ? [= <-]. }
  destruct (IH acc' N') as (N & O & K & S). repeat split.
  - done.
  - destruct O as [O|(j & p & Hj & Hp & O)].
    + destruct O' as [O'|(p & Hp & O')].
      * left. congruence.
      * right. exists i, p. split; [by left|]. split; [done|congruence].
    + right. exists j, p. split; [by right|done].
  - intros d Hd. by apply K, K'.
  - intros j p [<-|Hj] Hp; [by apply K, S'|by apply (S j p)].
Qed.

Lemma farthest_max (pts : list Point.t) (first lst : Point.t) :
  let m := fst (farthest pts first lst) in
  m <> NaN
  /\ (m = Fin 0
      \/ exists i p, interior pts i p /\ m = perpendicularDistance p first lst)
  /\ (forall i p, interior pts i p ->
        JS.gt (perpendicularDistance p first lst) m = false).
Proof.
  destruct (farthest_fold_max pts first lst (seq 1 (length pts - 2))
              (Fin 0, 0%nat)) as (N & O & _ & S); [done|].
  repeat split; [done| |].
  - destruct O as [O|(i & p & Hi & Hp & O)]; [by left|right].
    exists i, p. split; [|done]. split; [|done]. apply in_seq in Hi. lia.
  - intros i p [Hi Hp]. apply (S i p); [|done]. apply in_seq. lia.
Qed.

End SimplifyMore.

(** X1.  For a tolerance [>= 0] the simplified stroke is a subsequence of
    the input: points are only removed, never moved, added or reordered. *)
Theorem simplifyStroke_subsequence `{M : MathLib}
    (points : list Point.t) (tolerance : num) (fuel : nat) :
  JS.ge tolerance (Fin 0) = true ->
  (length points <= fuel)%nat ->
  exists out,
    StrokeProcessor.simplifyStroke fuel points tolerance = Some out
    /\ out `sublist_of` points.
Proof.
  intros Htol Hfuel. unfold StrokeProcessor.simplifyStroke.
  destruct (length points <=? 2)%nat eqn:E; [by exists points|].
  apply Nat.leb_gt in E.
  destruct (simplify_returns fuel points tolerance Htol) as (out & Hout & _);
    [lia..|].
  exists out. split; [done|]. by apply (simplify_sublist fuel _ _ tolerance).
Qed.

Lemma simplifyStroke_subsequence_witness :
  exists out,
    @StrokeProcessor.simplifyStroke ApproxMath.math 4 scenarioA (Fin 50)
      = Some out
    /\ out `sublist_of` scenarioA.
Proof.
  apply simplifyStroke_subsequence; [reflexivity | simpl; lia].
Defined.

(** X2.  A stroke of two points or more keeps two points at least, whatever
    the tolerance [>= 0]: a drawable stroke stays drawable. *)
Theorem simplifyStroke_keeps_two_points `{M : MathLib}
    (points : list Point.t) (tolerance : num) (fuel : nat) :
  JS.ge tolerance (Fin 0) = true ->
  (length points <= fuel)%nat ->
  (2 <= length points)%nat ->
  exists out,
    StrokeProcessor.simplifyStroke fuel points tolerance = Some out
    /\ (2 <= length out)%nat.
Proof.
  intros Htol Hfuel Htwo. unfold StrokeProcessor.simplifyStroke.
  destruct (length points <=? 2)%nat eqn:E; [by exists points|].
  apply Nat.leb_gt in E.
  destruct (simplify_returns fuel points tolerance Htol)
    as (out & Hout & _ & Hmin & _); [lia..|].
  exists out. split; [done|]. by apply Hmin.
Qed.

Lemma simplifyStroke_keeps_two_points_witness :
  exists out,
    @StrokeProcessor.simplifyStroke ApproxMath.math 4 scenarioA (Fin 50)
      = Some out
    /\ (2 <= length out)%nat.
Proof.
  apply simplifyStroke_keeps_two_points;
    [reflexivity | simpl; lia | simpl; lia].
Defined.

(** X3.  A stroke of three points or more collapses to its two ends exactly
    when no interior point is farther than the tolerance from the chord of
    the ends; otherwise a third point is kept. *)
Theorem simplifyStroke_collapses_iff `{M : MathLib}
    (points : list Point.t) (first lst : Point.t) (tolerance : num)
    (fuel : nat) :
  JS.ge tolerance (Fin 0) = true ->
  (length points <= fuel)%nat ->
  (3 <= length points)%nat ->
  head points = Some first ->
  last points = Some lst ->
  exists out,
    StrokeProcessor.simplifyStroke fuel points tolerance = Some out
    /\ (out = [first; lst]
        <-> forall i p,
              interior points i p ->
              JS.gt (StrokeProcessor.perpendicularDistance p first lst)
                    tolerance = false)
    /\ (out <> [first; lst] -> (3 <= length out)%nat).
Proof.
  intros Htol Hfuel Hlen Hhd Hlast. unfold StrokeProcessor.simplifyStroke.
  destruct (length points <=? 2)%nat eqn:E; [apply Nat.leb_le in E; lia|].
  destruct fuel as [|fuel]; [lia|].
  rewrite (simplify_long fuel points first lst) by done.
  destruct (farthest_max points first lst) as (Hnan & Horigin & Hmax).
  destruct (StrokeProcessor.farthest points first lst)
    as [maxDist maxIndex] eqn:Hfar.
  simpl in Hnan, Horigin, Hmax.
  destruct (JS.gt maxDist tolerance) eqn:Hgt.
  - pose proof (farthest_split _ _ _ _ _ _ Htol Hfar Hgt) as Hidx.
    destruct (simplify_returns fuel (take (maxIndex + 1) points) tolerance Htol)
      as (lf & -> & _ & Hl & _); [lia | rewrite length_take; lia |].
    destruct (simplify_returns fuel (drop maxIndex points) tolerance Htol)
      as (rt & -> & _ & Hr & _); [lia | rewrite length_drop; lia |].
    rewrite length_take in Hl. rewrite length_drop in Hr.
    assert (3 <= length (removelast lf ++ rt))%nat as Hthree.
    { rewrite length_app, length_removelast. lia. }
    eexists. split; [reflexivity|]. split; [split|done].
    + intros Heq. rewrite Heq in Hthree. simpl in Hthree. lia.
    + intros Hall. exfalso.
      destruct Horigin as [->|(i & p & Hi & ->)].
      * by rewrite (JSFacts.ge_zero_not_gt _ Htol) in Hgt.
      * by rewrite (Hall i p Hi) in Hgt.
  - eexists. split; [reflexivity|]. split; [split; [|done]|done].
    intros _ i p Hi.
    destruct (JS.gt (StrokeProcessor.perpendicularDistance p first lst) tolerance)
      eqn:Hp; [|done].
    by rewrite (JSOrder.gt_through _ _ _ Hnan (Hmax i p Hi) Hp) in Hgt.
Qed.

Lemma simplifyStroke_collapses_iff_witness :
  exists out,
    @StrokeProcessor.simplifyStroke ApproxMath.math 4 scenarioA (Fin 50)
      = Some out
    /\ (out = [pt 0 0; pt 20 10]
        <-> forall i p,
              interior scenarioA i p ->
              JS.gt (@StrokeProcessor.perpendicularDistance ApproxMath.math
                       p (pt 0 0) (pt 20 10))
                    (Fin 50) = false)
    /\ (out <> [pt 0 0; pt 20 10] -> (3 <= length out)%nat).
Proof.
  apply simplifyStroke_collapses_iff;
    [reflexivity | simpl; lia | simpl; lia | reflexivity | reflexivity].
Defined.

(** ** Pressure to width *)

Section PressureWidth.
Context {M : MathLib}.
Import StrokeProcessor.

(** The clamp [Math.max(0, Math.min(1, pressure))] of a pressure that is a
    number. *)
Lemma clamp_unit (pressure : num) :
  pressure <> NaN ->
  exists c,
    JS.max (Fin 0) (JS.min (Fin 1) pressure) = Fin c
    /\ 0 <= c <= 1
    /\ (JS.le pressure (Fin 0) = true -> c == 0)
    /\ (JS.ge pressure (Fin 1) = true -> c == 1)
    /\ (forall q, pressure = Fin q -> 0 <= q <= 1 -> c == q).
Proof.
  intros Hp. destruct pressure as [| |q|]; [done| | |];
    unfold JS.min, JS.max, JS.le, JS.ge, JS.compare; simpl;
    repeat match goal with
           | |- context [?a ?= ?b] => destruct (Qcompare_spec a b); simpl
           end;
    eexists; (split; [reflexivity|]);
    repeat split; try done; try lra;
    try (intros ? [= <-]; lra); try (intros; lra).
Qed.

(** The clamp is monotone. *)
Lemma clamp_monotone (p1 p2 : num) (c1 c2 : Q) :
  JS.le p1 p2 = true ->
  JS.max (Fin 0) (JS.min (Fin 1) p1) = Fin c1 ->
  JS.max (Fin 0) (JS.min (Fin 1) p2) = Fin c2 ->
  c1 <= c2.
Proof.
  intros Hle H1 H2.
  unfold JS.le, JS.max, JS.min, JS.compare in *.
  destruct p1 as [| |q1|], p2 as [| |q2|]; simpl in *; try done;
    repeat match goal with
           | H : context [?a ?= ?b] |- _ => destruct (Qcompare_spec a b)
           end;
    simpl in *; simplify_eq; try done; lra.
Qed.

End PressureWidth.

(** X4.  For widths [minWidth <= maxWidth] and a pressure that is a number,
    [mapPressureToWidth] lies between the two widths; a pressure of 0 or
    less maps to [minWidth], a pressure of 1 or more to [maxWidth], and in
    between the map is the linear interpolation. *)
Theorem mapPressureToWidth_range
    (pressure : num) (minWidth maxWidth : Q) :
  minWidth <= maxWidth ->
  pressure <> NaN ->
  exists w,
    StrokeProcessor.mapPressureToWidth pressure (Fin minWidth) (Fin maxWidth)
      = Fin w
    /\ minWidth <= w <= maxWidth
    /\ (JS.le pressure (Fin 0) = true -> w == minWidth)
    /\ (JS.ge pressure (Fin 1) = true -> w == maxWidth)
    /\ (forall q, pressure = Fin q -> 0 <= q <= 1 ->
          w == minWidth + (maxWidth - minWidth) * q).
Proof.
  intros Hw Hp. unfold StrokeProcessor.mapPressureToWidth.
  destruct (clamp_unit pressure Hp) as (c & -> & Hc & Hlow & Hhigh & Hmid).
  eexists. split; [reflexivity|]. repeat split.
  - nra.
  - nra.
  - intros H. rewrite (Hlow H). ring.
  - intros H. rewrite (Hhigh H). ring.
  - intros q Hq Hr. rewrite (Hmid q Hq Hr). ring.
Qed.

Lemma mapPressureToWidth_range_witness :
  exists w,
    StrokeProcessor.mapPressureToWidth (Fin 2)
      TextRenderer.MIN_STROKE_WIDTH TextRenderer.MAX_STROKE_WIDTH = Fin w
    /\ 1.5 <= w <= 3
    /\ (JS.le (Fin 2) (Fin 0) = true -> w == 1.5)
    /\ (JS.ge (Fin 2) (Fin 1) = true -> w == 3)
    /\ (forall q, Fin 2 = Fin q -> 0 <= q <= 1 -> w == 1.5 + (3 - 1.5) * q).
Proof.
  apply (mapPressureToWidth_range (Fin 2) 1.5 3); [lra | done].
Defined.

(** X5.  For widths [minWidth <= maxWidth], [mapPressureToWidth] is
    non-decreasing in the pressure. *)
Theorem mapPressureToWidth_monotone
    (p1 p2 : num) (minWidth maxWidth : Q) :
  minWidth <= maxWidth ->
  JS.le p1 p2 = true ->
  exists w1 w2,
    StrokeProcessor.mapPressureToWidth p1 (Fin minWidth) (Fin maxWidth) = Fin w1
    /\ StrokeProcessor.mapPressureToWidth p2 (Fin minWidth) (Fin maxWidth)
       = Fin w2
    /\ w1 <= w2.
Proof.
  intros Hw Hle. unfold StrokeProcessor.mapPressureToWidth.
  assert (p1 <> NaN /\ p2 <> NaN) as [N1 N2].
  { split; intros ->; JSOrder.cases. }
  destruct (clamp_unit p1 N1) as (c1 & E1 & Hc1 & _).
  destruct (clamp_unit p2 N2) as (c2 & E2 & Hc2 & _).
  pose proof (clamp_monotone p1 p2 c1 c2 Hle E1 E2) as Hc.
  rewrite E1, E2. do 2 eexists. do 2 (split; [reflexivity|]). nra.
Qed.

Lemma mapPressureToWidth_monotone_witness :
  exists w1 w2,
    StrokeProcessor.mapPressureToWidth (Fin (-1)) (Fin 1.5) (Fin 3) = Fin w1
    /\ StrokeProcessor.mapPressureToWidth (Fin 0.4) (Fin 1.5) (Fin 3) = Fin w2
    /\ w1 <= w2.
Proof.
  apply mapPressureToWidth_monotone; [lra | reflexivity].
Defined.


(** ** The bounding box *)

Section BoundsMore.
Import StrokeProcessor.

Lemma bounds_point_covers (acc : bounds_acc) (q : Point.t) :
  acc_started acc -> finite_point q ->
  covers (bounds_point acc q) q
  /\ (forall p, covers acc p -> covers (bounds_point acc q) p).
Proof.
  destruct acc as [[[a b] c] d], q as [[| |qx|] [| |qy|] pr ts];
    intros (Ha & Hb & Hc & Hd) [Hx Hy]; try done.
  destruct (JSOrder.min_lower a qx Ha) as [A1 A2].
  destruct (JSOrder.min_lower b qy Hb) as [B1 B2].
  destruct (JSOrder.max_upper c qx Hc) as [C1 C2].
  destruct (JSOrder.max_upper d qy Hd) as [D1 D2].
  split; [done|]. intros p (P1 & P2 & P3 & P4). simpl.
  eauto 8 using JSOrder.le_trans.
Qed.

Lemma bounds_stroke_covers (ps : list Point.t) (acc : bounds_acc) :
  acc_started acc -> Forall finite_point ps ->
  (forall p, In p ps -> covers (fold_left bounds_point ps acc) p)
  /\ (forall p, covers acc p -> covers (fold_left bounds_point ps acc) p).
Proof.
  intros Hacc Hps. revert acc Hacc.
  induction Hps as [|q ps Hq Hps IH]; intros acc Hacc; simpl; [done|].
  destruct (bounds_point_covers acc q Hacc Hq) as [Hnew Hold].
  destruct (IH (bounds_point acc q)) as [IH1 IH2].
  { by apply acc_finite_started, bounds_point_finite. }
  split.
  - intros p [<-|Hp]; [by apply IH2|by apply IH1].
  - intros p Hp. by apply IH2, Hold.
Qed.

Lemma bounds_strokes_covers (strokes : list Stroke) (acc : bounds_acc) :
  acc_started acc -> finite_points strokes ->
  (forall s p, In s strokes -> In p (points s) ->
     covers (fold_left bounds_stroke strokes acc) p)
  /\ (forall p, covers acc p -> covers (fold_left bounds_stroke strokes acc) p).
Proof.
  intros Hacc Hs. revert acc Hacc.
  induction Hs as [|s strokes Hp Hs IH]; intros acc Hacc; simpl; [done|].
  destruct (bounds_stroke_covers (points s) acc Hacc Hp) as [Hnew Hold].
  destruct (bounds_stroke_finite (points s) acc Hp) as (_ & Hst & _).
  destruct (IH (bounds_stroke acc s) (Hst Hacc)) as [IH1 IH2].
  split.
  - intros s' p [<-|Hin] Hp'; [by apply IH2, Hnew|by apply (IH1 s')].
  - intros p Hc. by apply IH2, Hold.
Qed.

(** The box of a stroke set encloses each of its points. *)
Lemma calculateBounds_inside (strokes : list Stroke) (s : Stroke)
    (p : Point.t) :
  finite_points strokes -> In s strokes -> In p (points s) ->
  inside (calculateBounds strokes) p.
Proof.
  intros Hfin Hs Hp.
  destruct (bounds_strokes_covers strokes (PosInf, PosInf, NegInf, NegInf))
    as [H _]; [simpl; auto | done |].
  specialize (H s p Hs Hp). unfold calculateBounds.
  destruct strokes as [|s0 rest]; [done|].
  by destruct (fold_left _ _ _) as [[[a b] c] d].
Qed.

End BoundsMore.

(** X6.  The bounding box of a stroke set of finite points encloses every
    point of every stroke, and its width and height are not negative. *)
Theorem calculateBounds_encloses (strokes : list Stroke) (s : Stroke)
    (p : Point.t) :
  finite_points strokes -> In s strokes -> In p (points s) ->
  let bounds := StrokeProcessor.calculateBounds strokes in
  inside bounds p
  /\ JS.ge (width bounds) (Fin 0) = true
  /\ JS.ge (height bounds) (Fin 0) = true.
Proof.
  intros Hfin Hs Hp bounds.
  pose proof (calculateBounds_inside strokes s p Hfin Hs Hp) as Hin.
  split; [done|]. subst bounds. revert Hin.
  destruct (calculateBounds_finite strokes Hfin) as (a & b & c & d & Ea & Eb & Ec & Ed).
  { exists s. split; [done|]. by destruct (points s). }
  unfold inside. rewrite Ea, Eb, Ec, Ed.
  assert (width (StrokeProcessor.calculateBounds strokes) = Fin (c + - a)
          /\ height (StrokeProcessor.calculateBounds strokes) = Fin (d + - b))
    as [-> ->].
  { revert Ea Eb Ec Ed. unfold StrokeProcessor.calculateBounds.
    destruct strokes as [|s0 rest]; [done|].
    destruct (fold_left _ _ _) as [[[a' b'] c'] d']. simpl.
    by intros -> -> -> ->. }
  destruct (Point.x p) as [| |px|], (Point.y p) as [| |py|];
    intros (H1 & H2 & H3 & H4); try done.
  apply JSOrder.le_finite in H1, H2, H3, H4.
  split; JSOrder.cases.
Qed.

Lemma calculateBounds_encloses_witness :
  let bounds := StrokeProcessor.calculateBounds [mkStroke scenarioA] in
  inside bounds (pt 10 10)
  /\ JS.ge (width bounds) (Fin 0) = true
  /\ JS.ge (height bounds) (Fin 0) = true.
Proof.
  apply (calculateBounds_encloses [mkStroke scenarioA] (mkStroke scenarioA)).
  - repeat constructor.
  - by left.
  - simpl. tauto.
Defined.

(** ** Connectors *)

(** [extractConnectors] gives no connector exactly when there is no
    stroke, or the first stroke or the last stroke has no point; otherwise
    the entry is the first point of the first stroke and the exit the last
    point of the last stroke.  For one stroke of one point, entry and exit
    coincide. *)
Theorem extractConnectors_ends (strokes : list Stroke) :
  (StrokeProcessor.extractConnectors strokes = None
   <-> strokes = []
       \/ (exists s, head strokes = Some s /\ points s = [])
       \/ (exists s, last strokes = Some s /\ points s = []))
  /\ (forall c,
        StrokeProcessor.extractConnectors strokes = Some c ->
        exists first lst p q,
          head strokes = Some first /\ last strokes = Some lst
          /\ head (points first) = Some p /\ last (points lst) = Some q
          /\ entry c = mkPoint2D (Point.x p) (Point.y p)
          /\ exit c = mkPoint2D (Point.x q) (Point.y q))
  /\ (forall p,
        exists c,
          StrokeProcessor.extractConnectors [mkStroke [p]] = Some c
          /\ entry c = exit c).
Proof.
  unfold StrokeProcessor.extractConnectors. split; [|split].
  - destruct strokes as [|s0 rest]; [by split; [left|]|].
    destruct (last (s0 :: rest)) as [sl|] eqn:Hl;
      [|by apply last_None in Hl].
    simpl head. destruct (head (points s0)) as [p|] eqn:Hp.
    + destruct (last (points sl)) as [q|] eqn:Hq.
      * split; [done|]. intros [?|[(s & [= <-] & Hs)|(s & [= <-] & Hs)]];
          [done|by rewrite Hs in Hp|by rewrite Hs in Hq].
      * split; [|done]. intros _. right. right. exists sl.
        split; [done|]. by apply last_None.
    + split; [|done]. intros _. right. left. exists s0.
      split; [done|]. by apply head_None.
  - intros c. destruct strokes as [|s0 rest]; [done|].
    destruct (last (s0 :: rest)) as [sl|] eqn:Hl; [|done].
    simpl head. destruct (head (points s0)) as [p|] eqn:Hp; [|done].
    destruct (last (points sl)) as [q|] eqn:Hq; [|done].
    intros [= <-]. by exists s0, sl, p, q.
  - intros p. eexists. split; [reflexivity|]. reflexivity.
Qed.



(** ** Normalisation keeps numbers finite *)

Section NormalizeMore.
Import StrokeProcessor.

(** The scale is never 0 (nor [NaN]). *)
Lemma scale_usable (bounds : Bounds) (metrics : option Metrics) :
  JS.truthy (spec_scale bounds metrics) = true.
Proof.
  unfold spec_scale.
  destruct (metrics ≫= emHeight) as [e|].
  - destruct (JS.truthy e) eqn:He; [done|].
    by destruct (JS.truthy (height bounds)) eqn:Hh.
  - by destruct (JS.truthy (height bounds)) eqn:Hh.
Qed.

Lemma scale_finite (bounds : Bounds) (metrics : option Metrics) :
  JS.finite (height bounds) ->
  finite_if_present (metrics ≫= emHeight) ->
  exists q, spec_scale bounds metrics = Fin q /\ Qeq_bool q 0 = false.
Proof.
  intros Hh He. pose proof (scale_usable bounds metrics) as Hu.
  assert (JS.finite (spec_scale bounds metrics)) as Hf.
  { unfold spec_scale. destruct (metrics ≫= emHeight) as [e|]; simpl in He.
    - destruct (JS.truthy e); [done|]. by destruct (JS.truthy (height bounds)).
    - by destruct (JS.truthy (height bounds)). }
  destruct (spec_scale bounds metrics) as [| |q|]; try done.
  exists q. split; [done|]. simpl in Hu. by destruct (Qeq_bool q 0).
Qed.

Lemma normalize_point_finite (ox oy : num) (q : Q) (p : Point.t) :
  JS.finite ox -> JS.finite oy -> Qeq_bool q 0 = false -> finite_point p ->
  finite_point (normalize_point ox oy (Fin q) p).
Proof.
  destruct ox, oy, p as [[| |px|] [| |py|] pr ts]; intros ? ? Hq [? ?];
    try done.
  unfold normalize_point, finite_point. simpl. by rewrite Hq.
Qed.

End NormalizeMore.

(** X8.  [normalize] never divides by zero: for finite points, a finite
    box and metrics whose [emHeight] and [ascender] are finite where
    present, every normalised coordinate is a finite number, also when
    [emHeight] or the height of the box is 0. *)
Theorem normalize_finite (strokes : list Stroke) (bounds : Bounds)
    (metrics : option Metrics) :
  finite_points strokes ->
  JS.finite (minX bounds) -> JS.finite (minY bounds) ->
  JS.finite (height bounds) ->
  finite_if_present (metrics ≫= emHeight) ->
  finite_if_present (metrics ≫= ascender) ->
  finite_points (StrokeProcessor.normalize strokes bounds metrics).
Proof.
  intros Hfin Hx Hy Hh He Ha.
  rewrite normalize_unfold, scale_chain.
  destruct (scale_finite bounds metrics Hh He) as (q & -> & Hq).
  assert (JS.finite (JS.nullish (metrics ≫= ascender) (minY bounds))) as Ho
    by (by destruct (metrics ≫= ascender)).
  unfold finite_points in *. rewrite Forall_map.
  eapply Forall_impl; [exact Hfin|]. intros s Hs. simpl.
  rewrite Forall_map. eapply Forall_impl; [exact Hs|]. intros p Hp. simpl.
  by apply normalize_point_finite.
Qed.

Lemma normalize_finite_witness :
  finite_points
    (StrokeProcessor.normalize [mkStroke scenarioA]
       (mkBounds (Fin 0) (Fin 0) (Fin 20) (Fin 10) (Fin 20) (Fin 0))
       (Some (mkMetrics (Some (Fin 0)) None None None (Some (Fin 0)) None))).
Proof.
  apply normalize_finite; try done. repeat constructor.
Defined.

(** X9.  A stroke set of finite points normalised by its own bounding box,
    without metrics, lands in the unit height: when the box is not flat
    (height other than 0), every normalised [y] is between 0 and 1 and
    every normalised [x] is 0 or more. *)
Theorem normalize_own_bounds_unit (strokes : list Stroke) :
  finite_points strokes ->
  let bounds := StrokeProcessor.calculateBounds strokes in
  JS.truthy (height bounds) = true ->
  Forall
    (fun s' =>
       Forall
         (fun p' =>
            JS.le (Fin 0) (Point.x p') = true
            /\ JS.le (Fin 0) (Point.y p') = true
            /\ JS.le (Point.y p') (Fin 1) = true)
         (points s'))
    (StrokeProcessor.normalize strokes bounds None).
Proof.
  intros Hfin bounds Hh.
  rewrite normalize_unfold, scale_chain.
  assert (spec_scale bounds None = height bounds) as ->
    by (unfold spec_scale; simpl; by rewrite Hh).
  rewrite Forall_map. apply Forall_forall. intros s Hs. simpl.
  rewrite Forall_map. apply Forall_forall. intros p Hp.
  apply list_elem_of_In in Hs, Hp.
  pose proof (calculateBounds_inside strokes s p Hfin Hs Hp) as Hin.
  fold bounds in Hin. revert Hin Hh. subst bounds.
  destruct (calculateBounds_finite strokes Hfin) as (a & b & c & d & Ea & Eb & Ec & Ed).
  { exists s. split; [done|]. by destruct (points s). }
  assert (height (StrokeProcessor.calculateBounds strokes) = Fin (d + - b)) as Eh.
  { revert Eb Ed. unfold StrokeProcessor.calculateBounds.
    destruct strokes as [|s0 rest]; [done|].
    destruct (fold_left _ _ _) as [[[a' b'] c'] d']. simpl.
    by intros -> ->. }
  unfold inside. rewrite Ea, Eb, Ec, Ed, Eh.
  unfold StrokeProcessor.normalize_point. simpl JS.nullish.
  destruct (Point.x p) as [| |px|], (Point.y p) as [| |py|];
    intros (H1 & H2 & H3 & H4) Hh; try done.
  apply JSOrder.le_finite in H1, H2, H3, H4.
  simpl in Hh. apply negb_true_iff in Hh.
  pose proof (Qeq_bool_neq _ _ Hh) as Hne.
  assert (0 < d + - b) as Hpos.
  { destruct (Qlt_le_dec 0 (d + - b)) as [?|Hle]; [done|].
    destruct Hne. lra. }
  cbn [Point.x Point.y JS.sub JS.add JS.neg JS.div]. rewrite Hh.
  rewrite !JSOrder.le_finite. repeat split.
  - apply Qle_shift_div_l; [done|]. lra.
  - apply Qle_shift_div_l; [done|]. lra.
  - apply Qle_shift_div_r; [done|]. lra.
Qed.

Lemma normalize_own_bounds_unit_witness :
  Forall
    (fun s' =>
       Forall
         (fun p' =>
            JS.le (Fin 0) (Point.x p') = true
            /\ JS.le (Fin 0) (Point.y p') = true
            /\ JS.le (Point.y p') (Fin 1) = true)
         (points s'))
    (StrokeProcessor.normalize [mkStroke scenarioA]
       (StrokeProcessor.calculateBounds [mkStroke scenarioA]) None).
Proof.
  apply (normalize_own_bounds_unit [mkStroke scenarioA]);
    [repeat constructor | reflexivity].
Defined.

(** ** Variation without rotation and scaling *)

Section VariationMore.
Context {M : MathLib} {L : MathLibLaws M}.
Import StrokeProcessor.

(** No rotation, unit scale: the point transform is a translation. *)
Lemma vary_point_translation (r sc ox oy cx cy px py : Q)
    (pr ts : option num) :
  r == 0 -> sc == 1 ->
  exists x' y',
    vary_point (Fin r) (Fin sc) (Fin ox) (Fin oy) (Fin cx) (Fin cy)
               (Point.mk (Fin px) (Fin py) pr ts)
    = Point.mk (Fin x') (Fin y')
               (Some (JS.or_undef pr (Fin 0.5)))
               (Some (JS.or_undef ts (Fin 0)))
    /\ x' == px + ox /\ y' == py + oy.
Proof.
  intros Hr Hsc. unfold vary_point.
  pose proof (Math_cos_0 r Hr) as Hc. pose proof (Math_sin_0 r Hr) as Hs.
  destruct (Math_cos (Fin r)) as [| |c|]; try done.
  destruct (Math_sin (Fin r)) as [| |s|]; try done.
  cbn in Hc, Hs. cbn -[Qplus Qmult Qopp].
  do 2 eexists. split; [reflexivity|].
  rewrite Hc, Hs, Hsc. split; ring.
Qed.

End VariationMore.

(** X10.  With [rotationRange] and [scaleRange] at 0 and a position jitter
    [j >= 0], [applyVariation] moves every point of the glyph by one and
    the same offset, of at most [j] along each axis, for any draws of the
    random source in [0, 1). *)
Theorem applyVariation_translation {M : MathLib} {L : MathLibLaws M}
    (strokes : list Stroke) (j q1 q2 q3 q4 : Q) :
  finite_points strokes ->
  0 <= j ->
  0 <= q3 < 1 -> 0 <= q4 < 1 ->
  exists ox oy,
    - j <= ox <= j /\ - j <= oy <= j
    /\ Forall2
         (fun stroke stroke' =>
            Forall2
              (fun point point' =>
                 exists x y x' y',
                   Point.x point = Fin x /\ Point.y point = Fin y
                   /\ Point.x point' = Fin x' /\ Point.y point' = Fin y'
                   /\ x' == x + ox /\ y' == y + oy)
              (points stroke) (points stroke'))
         strokes
         (StrokeProcessor.applyVariation strokes
            (StrokeProcessor.mkVariationConfig
               (Some (Fin j)) (Some (Fin 0)) (Some (Fin 0)))
            (StrokeProcessor.mkDraws (Fin q1) (Fin q2) (Fin q3) (Fin q4))).
Proof.
  intros Hfin Hj H3 H4.
  exists ((q3 + - 0.5) * 2 * j), ((q4 + - 0.5) * 2 * j).
  split; [nra|]. split; [nra|].
  unfold StrokeProcessor.applyVariation.
  apply Forall2_map_in. intros s Hs. cbn [points].
  apply Forall2_map_in. intros p Hp.
  destruct (calculateBounds_finite strokes Hfin)
    as (a & b & c & d & -> & -> & -> & ->).
  { exists s. split; [done|]. by destruct (points s). }
  assert (finite_point p) as [Hx Hy].
  { unfold finite_points in Hfin. rewrite Forall_forall in Hfin.
    specialize (Hfin s ltac:(by apply list_elem_of_In)).
    rewrite Forall_forall in Hfin. apply Hfin. by apply list_elem_of_In. }
  destruct p as [[| |px|] [| |py|] pr ts]; try done.
  unfold JS.PI. rewrite !JSFacts.div_fin by reflexivity.
  cbn [JS.nullish StrokeProcessor.positionJitter
       StrokeProcessor.rotationRange StrokeProcessor.scaleRange
       StrokeProcessor.draw_rotation StrokeProcessor.draw_scale
       StrokeProcessor.draw_offsetX StrokeProcessor.draw_offsetY
       StrokeProcessor.centred JS.mul JS.sub JS.add JS.neg].
  rewrite !JSFacts.div_fin by reflexivity.
  match goal with
  | |- context [StrokeProcessor.vary_point (Fin ?r) (Fin ?sc) (Fin ?ox)
                  (Fin ?oy) (Fin ?cx) (Fin ?cy) _] =>
      destruct (vary_point_translation r sc ox oy cx cy px py pr ts)
        as (x' & y' & E & Ex & Ey); [ring | ring |]
  end.
  rewrite E. by exists px, py, x', y'.
Qed.

Lemma applyVariation_translation_witness :
  exists ox oy,
    - (1 # 50) <= ox <= 1 # 50 /\ - (1 # 50) <= oy <= 1 # 50
    /\ Forall2
         (fun stroke stroke' =>
            Forall2
              (fun point point' =>
                 exists x y x' y',
                   Point.x point = Fin x /\ Point.y point = Fin y
                   /\ Point.x point' = Fin x' /\ Point.y point' = Fin y'
                   /\ x' == x + ox /\ y' == y + oy)
              (points stroke) (points stroke'))
         [mkStroke scenarioA]
         (@StrokeProcessor.applyVariation ApproxMath.math [mkStroke scenarioA]
            (StrokeProcessor.mkVariationConfig
               (Some (Fin (1 # 50))) (Some (Fin 0)) (Some (Fin 0)))
            (StrokeProcessor.mkDraws (Fin 0.1) (Fin 0.9) (Fin 0.25) (Fin 0.75))).
Proof.
  apply (@applyVariation_translation ApproxMath.math ApproxMath_laws);
    [repeat constructor | lra | lra | lra].
Defined.


(** ** Averages: smoothing and the baseline *)

Section Averages.
Import StrokeProcessorRest.

Lemma inject_succ (n : nat) :
  inject_Z (Z.of_nat (S n)) == inject_Z (Z.of_nat n) + 1.
Proof. rewrite Nat2Z.inj_succ, <- Z.add_1_r, inject_Z_plus. reflexivity. Qed.

(** A sum of [n] numbers of [[a, b]] lies in [[n a, n b]]. *)
Lemma sum_between {A} (f : A -> num) (a b : Q) (l : list A) :
  Forall (fun x => exists q, f x = Fin q /\ a <= q <= b) l ->
  forall (s0 : Q) (n0 : nat),
    inject_Z (Z.of_nat n0) * a <= s0 <= inject_Z (Z.of_nat n0) * b ->
    exists s,
      fold_left (fun sum x => JS.add sum (f x)) l (Fin s0) = Fin s
      /\ inject_Z (Z.of_nat (n0 + length l)) * a <= s
         <= inject_Z (Z.of_nat (n0 + length l)) * b.
Proof.
  induction 1 as [|x l (q & Hq & Hr) _ IH]; intros s0 n0 Hs0; simpl.
  - exists s0. by rewrite Nat.add_0_r.
  - rewrite Hq. simpl.
    destruct (IH (s0 + q) (S n0)) as (s & -> & Hs).
    { rewrite inject_succ. set (N := inject_Z (Z.of_nat n0)) in *.
      assert ((N + 1) * a == N * a + a) as -> by ring.
      assert ((N + 1) * b == N * b + b) as -> by ring. lra. }
    exists s. split; [done|].
    by replace (n0 + S (length l))%nat with (S n0 + length l)%nat by lia.
Qed.

(** The mean of one number or more of [[a, b]] lies in [[a, b]]. *)
Lemma mean_between {A} (f : A -> num) (a b : Q) (l : list A) :
  l <> [] ->
  Forall (fun x => exists q, f x = Fin q /\ a <= q <= b) l ->
  exists m,
    JS.div (fold_left (fun sum x => JS.add sum (f x)) l (Fin 0))
           (Fin (inject_Z (Z.of_nat (length l))))
    = Fin m
    /\ a <= m <= b.
Proof.
  intros Hne Hl.
  destruct (sum_between f a b l Hl 0 0%nat) as (s & -> & Hs).
  { change (inject_Z (Z.of_nat 0)) with 0. rewrite !Qmult_0_l. lra. }
  simpl in Hs.
  assert (0 < inject_Z (Z.of_nat (length l))) as Hpos.
  { destruct l as [|x l]; [done|]. simpl length. rewrite inject_succ.
    assert (0 <= inject_Z (Z.of_nat (length l))); [|lra].
    change 0 with (inject_Z 0). rewrite <- Zle_Qle. lia. }
  rewrite JSFacts.div_fin.
  2:{ destruct (Qeq_bool _ 0) eqn:E; [|done]. apply Qeq_bool_eq in E. lra. }
  eexists. split; [reflexivity|]. split.
  - apply Qle_shift_div_l; [done|]. lra.
  - apply Qle_shift_div_r; [done|]. lra.
Qed.

(** The window of a point of the stroke holds that point at least, and
    points of the stroke only. *)
Lemma window_nonempty (points : list Point.t) (halfWindow i : nat) :
  (i < length points)%nat -> window points halfWindow i <> [].
Proof.
  intros Hi Hw. apply (f_equal length) in Hw. revert Hw.
  unfold window. rewrite length_take, length_drop. simpl. lia.
Qed.

Lemma window_sublist (points : list Point.t) (halfWindow i : nat) :
  window points halfWindow i `sublist_of` points.
Proof.
  unfold window. etrans; [apply sublist_take|apply sublist_drop].
Qed.

Lemma smooth_point_within (a b c d : Q) (points : list Point.t)
    (halfWindow i : nat) (p : Point.t) :
  Forall (within a b c d) points ->
  (i < length points)%nat ->
  within a b c d (smooth_point points halfWindow i p).
Proof.
  intros Hall Hi.
  pose proof (window_nonempty points halfWindow i Hi) as Hne.
  assert (Forall (within a b c d) (window points halfWindow i)) as Hw.
  { apply Forall_forall. intros q Hq. rewrite Forall_forall in Hall.
    apply Hall. eapply elem_of_sublist; [exact Hq|apply window_sublist]. }
  destruct (mean_between Point.x a c _ Hne) as (mx & Ex & Hx).
  { eapply Forall_impl; [exact Hw|]. intros q (x & y & -> & _ & ? & _). eauto. }
  destruct (mean_between Point.y b d _ Hne) as (my & Ey & Hy).
  { eapply Forall_impl; [exact Hw|]. intros q (x & y & _ & -> & _ & ?). eauto. }
  exists mx, my. unfold smooth_point, sum_of, count_of. simpl.
  by rewrite Ex, Ey.
Qed.

(** The lowest point of a stroke with a point, all of them in [[b, d]]. *)
Lemma lowest_between (b d : Q) (ys : list num) (acc : num) :
  Forall (fun y => exists q, y = Fin q /\ b <= q <= d) ys ->
  (acc = NegInf \/ exists q, acc = Fin q /\ b <= q <= d) ->
  (ys = [] /\ fold_left JS.max ys acc = acc)
  \/ exists m, fold_left JS.max ys acc = Fin m /\ b <= m <= d.
Proof.
  intros Hys. revert acc.
  induction Hys as [|y ys (q & -> & Hq) _ IH]; intros acc Hacc; [by left|].
  right. simpl.
  destruct (IH (JS.max acc (Fin q))) as [[-> ->]|Hm]; [| |done].
  - right. destruct Hacc as [->|(q0 & -> & Hq0)]; [by exists q|].
    unfold JS.max. simpl. destruct (q0 ?= q); eauto.
  - destruct Hacc as [->|(q0 & -> & Hq0)]; [by exists q|].
    unfold JS.max. simpl. destruct (q0 ?= q); eauto.
Qed.

Lemma detectBaseline_between (b d : Q) (strokes : list Stroke) :
  strokes <> [] ->
  Forall (fun s => points s <> []
                   /\ Forall (fun p => exists q, Point.y p = Fin q
                                                 /\ b <= q <= d)
                             (points s)) strokes ->
  exists m, detectBaseline strokes = Fin m /\ b <= m <= d.
Proof.
  intros Hne Hall. unfold detectBaseline.
  destruct strokes as [|s0 rest] eqn:E; [done|]. rewrite <- E in *.
  apply (mean_between lowest b d strokes Hne).
  eapply Forall_impl; [exact Hall|]. intros s [Hs Hp]. unfold lowest.
  destruct (lowest_between b d (map Point.y (points s)) NegInf)
    as [[Hnil _]|Hm]; [|by left| |done].
  - rewrite Forall_map. exact Hp.
  - apply map_eq_nil in Hnil. done.
Qed.

End Averages.

(** X11.  [smoothStroke] returns as many points as it is given, and each
    smoothed point lies in any box that holds all the input points: the
    moving average never leaves the bounding box of the stroke. *)
Theorem smoothStroke_within (a b c d : Q) (points : list Point.t)
    (windowSize : nat) :
  Forall (within a b c d) points ->
  length (StrokeProcessorRest.smoothStroke points windowSize) = length points
  /\ Forall (within a b c d)
            (StrokeProcessorRest.smoothStroke points windowSize).
Proof.
  intros Hall. unfold StrokeProcessorRest.smoothStroke.
  destruct (length points <? windowSize)%nat; [done|].
  split; [apply length_imap|].
  apply Forall_lookup. intros i p'. rewrite list_lookup_imap.
  destruct (points !! i) as [p|] eqn:Hp; [|done]. intros [= <-].
  apply smooth_point_within; [done|]. by eapply lookup_lt_Some.
Qed.

Lemma smoothStroke_within_witness :
  length (StrokeProcessorRest.smoothStroke scenarioA 3) = length scenarioA
  /\ Forall (within 0 0 20 10) (StrokeProcessorRest.smoothStroke scenarioA 3).
Proof.
  apply smoothStroke_within.
  repeat constructor; eexists _, _; repeat split; (reflexivity || lra).
Defined.

(** X12.  For a stroke set of finite points in which every stroke has a
    point, the detected baseline (the mean of the lowest points of the
    strokes) lies within the vertical extent of the bounding box. *)
Theorem detectBaseline_in_bounds (strokes : list Stroke) :
  finite_points strokes ->
  strokes <> [] ->
  Forall (fun s => points s <> []) strokes ->
  let bounds := StrokeProcessor.calculateBounds strokes in
  JS.le (minY bounds) (StrokeProcessorRest.detectBaseline strokes) = true
  /\ JS.le (StrokeProcessorRest.detectBaseline strokes) (maxY bounds) = true.
Proof.
  intros Hfin Hne Hpts bounds. subst bounds.
  destruct (calculateBounds_finite strokes Hfin)
    as (a & b & c & d & Ea & Eb & Ec & Ed).
  { destruct strokes as [|s0 rest]; [done|]. exists s0. split; [by left|].
    by apply Forall_inv in Hpts. }
  destruct (detectBaseline_between b d strokes Hne) as (m & -> & Hm).
  { apply Forall_forall. intros s Hs. rewrite Forall_forall in Hpts.
    split; [by apply Hpts|]. apply Forall_forall. intros p Hp.
    apply list_elem_of_In in Hs, Hp.
    pose proof (calculateBounds_inside strokes s p Hfin Hs Hp) as Hin.
    unfold inside in Hin. rewrite Eb, Ed in Hin.
    destruct Hin as (_ & _ & H3 & H4).
    destruct (Point.y p) as [| |py|]; try done.
    apply JSOrder.le_finite in H3, H4. eauto. }
  rewrite Eb, Ed, !JSOrder.le_finite. lra.
Qed.

Lemma detectBaseline_in_bounds_witness :
  let bounds := StrokeProcessor.calculateBounds
                  [mkStroke scenarioA; mkStroke [pt 3 4]] in
  JS.le (minY bounds)
        (StrokeProcessorRest.detectBaseline
           [mkStroke scenarioA; mkStroke [pt 3 4]]) = true
  /\ JS.le (StrokeProcessorRest.detectBaseline
              [mkStroke scenarioA; mkStroke [pt 3 4]])
           (maxY bounds) = true.
Proof.
  apply (detectBaseline_in_bounds [mkStroke scenarioA; mkStroke [pt 3 4]]);
    [repeat constructor | done | by repeat constructor].
Defined.

(** ** The font document: characters and statistics *)

Section FontStoreFacts.
Import FontStore.

Lemma hasCharacter_lookup (doc : FontData.t) (char : string) :
  FontData.hasCharacter doc char = true
  <-> is_Some (FontData.characters doc !! char).
Proof. unfold FontData.hasCharacter. apply bool_decide_eq_true. Qed.

Lemma hasCharacter_false (doc : FontData.t) (char : string) :
  FontData.hasCharacter doc char = false
  <-> FontData.characters doc !! char = None.
Proof.
  unfold FontData.hasCharacter. rewrite bool_decide_eq_false.
  rewrite <- eq_None_not_Some. done.
Qed.

Lemma capturedCount_size (this : t) :
  capturedCount (getStatistics this)
  = size (FontData.characters (data this)).
Proof.
  unfold getStatistics, getCapturedCharacters. simpl.
  by rewrite length_fmap, length_map_to_list.
Qed.

(** The running total of the reduce is the sum of the stroke counts. *)
Lemma total_fold (count : string -> nat) (keys : list string) (sum : nat) :
  fold_left (fun sum char => (sum + count char)%nat) keys sum
  = (sum + sum_list_with count keys)%nat.
Proof.
  revert sum. induction keys as [|k keys IH]; intros sum; simpl; [lia|].
  rewrite IH. lia.
Qed.

Lemma sum_list_with_agree {A} (f g : A -> nat) (l : list A) :
  (forall x, x ∈ l -> f x = g x) -> sum_list_with f l = sum_list_with g l.
Proof.
  induction l as [|a l IH]; intros H; simpl; [done|].
  rewrite H by apply list_elem_of_here.
  rewrite IH; [done|]. intros x Hx. apply H. by apply list_elem_of_further.
Qed.

Lemma totalStrokes_sum (this : t) :
  totalStrokes (getStatistics this)
  = sum_list_with (strokeCount this) (getCapturedCharacters this).
Proof. unfold getStatistics. simpl. by rewrite total_fold. Qed.

End FontStoreFacts.

(** The names an object inherits have seven characters or more: on the
    keys of one or two characters [in] finds the own keys only. *)
Lemma inherited_long (char : string) :
  FontStore.inherited char = true -> (7 <= String.length char)%nat.
Proof.
  unfold FontStore.inherited, FontStore.Object_prototype_names.
  intros H. apply bool_decide_eq_true in H.
  repeat (apply elem_of_cons in H as [->|H]; [simpl; lia|]).
  by apply elem_of_nil in H.
Qed.

Lemma hasCharacter_short (this : FontStore.t) (char : string) :
  (String.length char <= 2)%nat ->
  FontStore.hasCharacter this char
  = FontData.hasCharacter (FontStore.data this) char.
Proof.
  intros Hlen. unfold FontStore.hasCharacter.
  destruct (FontStore.inherited char) eqn:E; [|by rewrite orb_false_r].
  apply inherited_long in E. lia.
Qed.

(** X13.  For a key other than [__proto__], [setCharacter] then
    [getCharacter] of the same key gives the record just stored (the
    baseline defaulted to 0 when missing), and [hasCharacter] finds the key;
    for every other key, inherited names included, [getCharacter] and
    [hasCharacter] answer as before; the creation time is kept and the
    modification time is the new reading of the clock. *)
Theorem setCharacter_getCharacter (this : FontStore.t) (char : string)
    (strokes : list Stroke) (bounds : Bounds) (baseline : option num)
    (metrics : option Metrics) (connectors : option Connector)
    (stamp now : string) :
  char <> "__proto__"%string ->
  let this' := FontStore.setCharacter this char strokes bounds baseline
                 metrics connectors stamp now in
  FontStore.getCharacter this' char
  = FontStore.Glyph (Character.mk strokes bounds (JS.or_undef baseline (Fin 0))
                                  metrics connectors stamp)
  /\ FontStore.hasCharacter this' char = true
  /\ (forall other, other <> char ->
        FontStore.getCharacter this' other = FontStore.getCharacter this other
        /\ FontStore.hasCharacter this' other
           = FontStore.hasCharacter this other)
  /\ FontStore.created (FontStore.metadata this')
     = FontStore.created (FontStore.metadata this)
  /\ FontStore.modified (FontStore.metadata this') = now.
Proof.
  intros _ this'. subst this'.
  unfold FontStore.setCharacter, FontStore.getCharacter,
    FontStore.hasCharacter, FontData.hasCharacter. simpl.
  split; [by rewrite lookup_insert_eq|].
  split.
  { apply orb_true_iff. left. apply bool_decide_eq_true.
    rewrite lookup_insert_eq. by eexists. }
  split; [|done].
  intros other Hne. by rewrite lookup_insert_ne.
Qed.

Lemma setCharacter_getCharacter_witness :
  let this' := FontStore.setCharacter (FontStore.create "t0" "t0") "toString"
                 [mkStroke scenarioA] boundsB None None None "t1" "t2" in
  FontStore.getCharacter this' "toString"
  = FontStore.Glyph (Character.mk [mkStroke scenarioA] boundsB
                                  (JS.or_undef None (Fin 0)) None None "t1")
  /\ FontStore.hasCharacter this' "toString" = true
  /\ (forall other, other <> "toString"%string ->
        FontStore.getCharacter this' other
        = FontStore.getCharacter (FontStore.create "t0" "t0") other
        /\ FontStore.hasCharacter this' other
           = FontStore.hasCharacter (FontStore.create "t0" "t0") other)
  /\ FontStore.created (FontStore.metadata this')
     = FontStore.created (FontStore.metadata (FontStore.create "t0" "t0"))
  /\ FontStore.modified (FontStore.metadata this') = "t2"%string.
Proof.
  apply (setCharacter_getCharacter (FontStore.create "t0" "t0") "toString").
  done.
Defined.

(** X14.  [removeCharacter] leaves no own key of that name and changes no
    other key.  For a name [in] finds, an own key or an inherited name such
    as [toString], the modification time is stamped; the count of stored
    keys goes down by one for an own key, and the characters are as they
    were for a name that is only inherited.  For a name [in] does not find,
    nothing changes, the modification time included. *)
Theorem removeCharacter_effect (this : FontStore.t) (char now : string) :
  let this' := FontStore.removeCharacter this char now in
  let own := is_Some (FontData.characters (FontStore.data this) !! char) in
  (FontStore.hasCharacter this char = true
   <-> own \/ In char FontStore.Object_prototype_names)
  /\ FontData.characters (FontStore.data this') !! char = None
  /\ (forall other, other <> char ->
        FontStore.getCharacter this' other
        = FontStore.getCharacter this other)
  /\ (FontStore.hasCharacter this char = true ->
      FontStore.modified (FontStore.metadata this') = now
      /\ FontStore.created (FontStore.metadata this')
         = FontStore.created (FontStore.metadata this))
  /\ (own ->
      FontStore.capturedCount (FontStore.getStatistics this')
      = pred (FontStore.capturedCount (FontStore.getStatistics this)))
  /\ (~ own -> FontStore.data this' = FontStore.data this)
  /\ (FontStore.hasCharacter this char = false -> this' = this).
Proof.
  intros this' own. subst this' own.
  assert (FontStore.hasCharacter this char = true
          <-> is_Some (FontData.characters (FontStore.data this) !! char)
              \/ In char FontStore.Object_prototype_names) as Hin.
  { unfold FontStore.hasCharacter, FontStore.inherited.
    rewrite orb_true_iff, hasCharacter_lookup, bool_decide_eq_true.
    by rewrite list_elem_of_In. }
  split; [exact Hin|].
  unfold FontStore.removeCharacter.
  destruct (FontStore.hasCharacter this char) eqn:Hhas.
  - split; [simpl; apply lookup_delete_eq|].
    split.
    { intros other Hne. unfold FontStore.getCharacter. simpl.
      by rewrite lookup_delete_ne. }
    split; [done|]. split.
    { intros Hown. rewrite !capturedCount_size. simpl.
      by apply map_size_delete_Some. }
    split; [|done].
    intros Hnot. simpl. destruct (FontStore.data this) as [m]. simpl in *.
    f_equal. apply delete_id. by apply eq_None_not_Some.
  - split.
    { apply eq_None_not_Some. intros Hown.
      assert (false = true) by (apply Hin; by left). done. }
    repeat split; try done.
    intros Hown.
    assert (false = true) by (apply Hin; by left). done.
Qed.

(** X15.  The statistics count the own keys.  For a key other than
    [__proto__]: storing a character under a key that is not among the
    captured characters adds one to [capturedCount] and its strokes to
    [totalStrokes]; storing under a key already there leaves
    [capturedCount] as it is.  After [clear] both are 0. *)
Theorem getStatistics_counts (this : FontStore.t) (char : string)
    (strokes : list Stroke) (bounds : Bounds) (baseline : option num)
    (metrics : option Metrics) (connectors : option Connector)
    (stamp now : string) :
  char <> "__proto__"%string ->
  let this' := FontStore.setCharacter this char strokes bounds baseline
                 metrics connectors stamp now in
  let stats := FontStore.getStatistics this in
  let stats' := FontStore.getStatistics this' in
  (~ In char (FontStore.getCapturedCharacters this) ->
   FontStore.capturedCount stats' = S (FontStore.capturedCount stats)
   /\ FontStore.totalStrokes stats'
      = (FontStore.totalStrokes stats + length strokes)%nat)
  /\ (In char (FontStore.getCapturedCharacters this) ->
      FontStore.capturedCount stats' = FontStore.capturedCount stats)
  /\ FontStore.capturedCount
       (FontStore.getStatistics (FontStore.clear this now)) = 0%nat
  /\ FontStore.totalStrokes
       (FontStore.getStatistics (FontStore.clear this now)) = 0%nat.
Proof.
  intros _ this' stats stats'. subst this' stats stats'.
  assert (In char (FontStore.getCapturedCharacters this)
          <-> is_Some (FontData.characters (FontStore.data this) !! char))
    as Hkeys.
  { unfold FontStore.getCapturedCharacters.
    rewrite <- list_elem_of_In, list_elem_of_fmap. split.
    - intros ([k v] & -> & Hkv). apply elem_of_map_to_list in Hkv.
      by eexists.
    - intros [v Hv]. exists (char, v). split; [done|].
      by apply elem_of_map_to_list. }
  split; [|split; [|split]].
  - intros Hnew. rewrite Hkeys in Hnew. apply eq_None_not_Some in Hnew.
    split.
    + rewrite !capturedCount_size. simpl. by apply map_size_insert_None.
    + rewrite !totalStrokes_sum. unfold FontStore.getCapturedCharacters.
      simpl.
      set (c := Character.mk _ _ _ _ _ _).
      rewrite (fmap_Permutation _ _ _ (map_to_list_insert _ _ c Hnew)).
      simpl. unfold FontStore.strokeCount at 1. simpl.
      rewrite lookup_insert_eq. simpl.
      rewrite Nat.add_comm. f_equal.
      apply sum_list_with_agree. intros k Hk. unfold FontStore.strokeCount. simpl.
      rewrite lookup_insert_ne; [done|]. intros <-.
      apply list_elem_of_fmap in Hk as ([k v] & -> & Hkv).
      apply elem_of_map_to_list in Hkv. simpl in Hnew. congruence.
  - intros Hold. apply Hkeys in Hold.
    rewrite !capturedCount_size. simpl.
    by apply map_size_insert_Some.
  - rewrite capturedCount_size. simpl. apply map_size_empty.
  - rewrite totalStrokes_sum. unfold FontStore.getCapturedCharacters. simpl.
    by rewrite map_to_list_empty.
Qed.

Lemma getStatistics_counts_witness :
  let this := FontStore.create "t0" "t0" in
  let this' := FontStore.setCharacter this "a" [mkStroke scenarioA] boundsB
                 None None None "t1" "t2" in
  let stats := FontStore.getStatistics this in
  let stats' := FontStore.getStatistics this' in
  (~ In "a"%string (FontStore.getCapturedCharacters this) ->
   FontStore.capturedCount stats' = S (FontStore.capturedCount stats)
   /\ FontStore.totalStrokes stats'
      = (FontStore.totalStrokes stats + length [mkStroke scenarioA])%nat)
  /\ (In "a"%string (FontStore.getCapturedCharacters this) ->
      FontStore.capturedCount stats' = FontStore.capturedCount stats)
  /\ FontStore.capturedCount
       (FontStore.getStatistics (FontStore.clear this "t2")) = 0%nat
  /\ FontStore.totalStrokes
       (FontStore.getStatistics (FontStore.clear this "t2")) = 0%nat.
Proof.
  apply (getStatistics_counts (FontStore.create "t0" "t0") "a").
  done.
Defined.


(** X16.  The standard set has 74 characters.  A character is reported
    missing exactly when it is in the standard set and not in the document:
    storing a character takes it off the list and leaves the others, and
    after [clear] the whole standard set is missing. *)
Theorem getMissingCharacters_tracks (this : FontStore.t) (char : string)
    (strokes : list Stroke) (bounds : Bounds) (baseline : option num)
    (metrics : option Metrics) (connectors : option Connector)
    (stamp now : string) :
  let this' := FontStore.setCharacter this char strokes bounds baseline
                 metrics connectors stamp now in
  length FontStore.getStandardCharacterSet = 74%nat
  /\ (forall c, In c (FontStore.getMissingCharacters this)
                <-> In c FontStore.getStandardCharacterSet
                    /\ FontData.hasCharacter (FontStore.data this) c = false)
  /\ ~ In char (FontStore.getMissingCharacters this')
  /\ (forall other, other <> char ->
        In other (FontStore.getMissingCharacters this')
        <-> In other (FontStore.getMissingCharacters this))
  /\ FontStore.getMissingCharacters (FontStore.clear this now)
     = FontStore.getStandardCharacterSet.
Proof.
  intros this'. subst this'. unfold FontStore.getMissingCharacters.
  split; [reflexivity|]. split; [|split; [|split]].
  - intros c. rewrite filter_In, negb_true_iff. done.
  - rewrite filter_In, negb_true_iff. intros [_ H].
    apply hasCharacter_false in H. simpl in H.
    by rewrite lookup_insert_eq in H.
  - intros other Hne. rewrite !filter_In, !negb_true_iff.
    rewrite !hasCharacter_false. simpl.
    by rewrite lookup_insert_ne.
  - apply forallb_filter_id. apply forallb_forall. intros c _.
    apply negb_true_iff, hasCharacter_false. simpl. apply lookup_empty.
Qed.

(** ** Export, import and the local storage *)

Section StorageFacts.
Context {J : JSONLib} {W : JSONWriter}.
Import FontDataImport FontDataStorage.

(** A failed import leaves the document as it was. *)
Lemma importJSON_failed_intact (clock : string * string) (this : t)
    (text : string) :
  returned (importJSON clock this text) = false ->
  this_after (importJSON clock this text) = this.
Proof.
  unfold importJSON.
  destruct (JSON_parse text) as [data|]; [|done].
  destruct (get data "characters") as [| |chars]; try done.
  by destruct (negb _ || negb _).
Qed.

(** What the import of an exported document gives, when the text reads
    back as the value written. *)
Lemma import_of_export (clock : string * string) (this other : t) :
  JSON_parse (exportJSON this)
  = Some (JObject [("metadata"%string, metadata this);
                   ("characters"%string, characters this)]) ->
  is_object (characters this) ->
  truthy (metadata this) = true ->
  importJSON clock other (exportJSON this) = mkOutcome true this None.
Proof.
  intros Hparse Hobj Hmeta. unfold importJSON. rewrite Hparse. simpl.
  apply rejected_iff in Hobj. rewrite Hobj, Hmeta. by destruct this.
Qed.

End StorageFacts.

(** X17.  Importing what [exportJSON] wrote restores the exported document,
    characters and metadata, whatever document was loaded before; provided
    the text reads back as the value written (the JSON library round trip),
    and the document has a characters object and a metadata object. *)
Theorem exportJSON_importJSON {J : JSONLib} {W : JSONWriter}
    (clock : string * string) (this other : FontDataImport.t) :
  JSON_parse (FontDataStorage.exportJSON this)
  = Some (JObject [("metadata"%string, FontDataImport.metadata this);
                   ("characters"%string, FontDataImport.characters this)]) ->
  is_object (FontDataImport.characters this) ->
  FontDataImport.truthy (FontDataImport.metadata this) = true ->
  let r := FontDataImport.importJSON clock other
             (FontDataStorage.exportJSON this) in
  FontDataImport.returned r = true /\ FontDataImport.this_after r = this.
Proof.
  intros Hparse Hobj Hmeta r. subst r.
  by rewrite (import_of_export clock this other Hparse Hobj Hmeta).
Qed.

Lemma exportJSON_importJSON_witness :
  let r := @FontDataImport.importJSON OneDocument.reader ("now", "now")%string
             (FontDataImport.mk JNull JNull)
             (@FontDataStorage.exportJSON OneDocument.writer
                OneDocument.stored) in
  FontDataImport.returned r = true
  /\ FontDataImport.this_after r = OneDocument.stored.
Proof.
  apply (@exportJSON_importJSON OneDocument.reader OneDocument.writer);
    reflexivity || done.
Defined.

(** X18.  [loadFromLocalStorage] returns [false] for a key that is not
    stored or stores the empty text, and whenever it returns [false] the
    document is as it was before the call. *)
Theorem loadFromLocalStorage_failure {J : JSONLib}
    (storage : gmap string string) (clock : string * string)
    (this : FontDataImport.t) (key : string) :
  let r := FontDataStorage.loadFromLocalStorage storage clock this key in
  (storage !! key = None \/ storage !! key = Some EmptyString ->
   fst r = false)
  /\ (fst r = false -> snd r = this).
Proof.
  intros r. subst r. unfold FontDataStorage.loadFromLocalStorage. split.
  - intros [->| ->]; done.
  - destruct (storage !! key) as [data|]; [|done].
    destruct (String.eqb data EmptyString); [done|]. simpl.
    apply importJSON_failed_intact.
Qed.

(** X19.  A document saved with [saveToLocalStorage] and loaded back with
    [loadFromLocalStorage] under the same key is restored, whatever
    document was loaded before; provided the storage took the text, the
    text is not empty and reads back as the value written. *)
Theorem save_then_load {J : JSONLib} {W : JSONWriter}
    (setItem : gmap string string -> string -> string
               -> option (gmap string string))
    (storage storage' : gmap string string) (clock : string * string)
    (this other : FontDataImport.t) (key : string) :
  FontDataStorage.saveToLocalStorage setItem storage this key
  = (true, storage') ->
  storage' !! key = Some (FontDataStorage.exportJSON this) ->
  FontDataStorage.exportJSON this <> EmptyString ->
  JSON_parse (FontDataStorage.exportJSON this)
  = Some (JObject [("metadata"%string, FontDataImport.metadata this);
                   ("characters"%string, FontDataImport.characters this)]) ->
  is_object (FontDataImport.characters this) ->
  FontDataImport.truthy (FontDataImport.metadata this) = true ->
  FontDataStorage.loadFromLocalStorage storage' clock other key
  = (true, this).
Proof.
  intros _ Hstored Hne Hparse Hobj Hmeta.
  unfold FontDataStorage.loadFromLocalStorage. rewrite Hstored.
  apply String.eqb_neq in Hne. rewrite Hne.
  by rewrite (import_of_export clock this other Hparse Hobj Hmeta).
Qed.

Lemma save_then_load_witness :
  @FontDataStorage.loadFromLocalStorage OneDocument.reader
    (<["handwritingData"%string := "saved"%string]> ∅) ("now", "now")%string
    (FontDataImport.mk JNull JNull) "handwritingData"
  = (true, OneDocument.stored).
Proof.
  apply (@save_then_load OneDocument.reader OneDocument.writer
           OneDocument.setItem ∅); try reflexivity; done.
Defined.


(** ** More on the layout of a line *)

Section LayoutMore.
Context {M : MathLib} {N : NumberLib}.
Variable fontData : FontData.t.
Variable config : TextRenderer.RenderConfig.
Variable random : nat -> num.
Import TextRenderer.

Local Abbreviation iteration := (renderLine_iteration fontData config random).

Lemma iteration_in_line (text : string) (startY : num) (st : LineState.t) :
  (LineState.i st < String.length text)%nat ->
  in_line text st -> in_line text (iteration text startY st).
Proof.
  intros Hi [H1 H2]. unfold in_line.
  rewrite iteration_index, iteration_lookup.
  pose proof (step_positive fontData text (LineState.i st)) as Hstep.
  assert (LineState.i st + step fontData text (LineState.i st)
          <= String.length text)%nat as Hend.
  { unfold step. destruct (usePair fontData text (LineState.i st)) eqn:E; [|lia].
    apply usePair_true in E as [? _]. lia. }
  split; [done|].
  destruct (String.eqb _ _); [lia|]. rewrite length_app. simpl. lia.
Qed.

Lemma iteration_nothing_drawn (text : string) (startY : num)
    (st : LineState.t) :
  FontData.characters fontData = ∅ ->
  nothing_drawn st -> nothing_drawn (iteration text startY st).
Proof.
  intros Hempty. destruct st as [i x svg missing prev draws lookups].
  unfold nothing_drawn, renderLine_iteration. simpl.
  intros (-> & -> & ->).
  destruct (String.eqb _ _); [done|].
  unfold FontData.getCharacter. rewrite Hempty, lookup_empty. done.
Qed.

End LayoutMore.

(** X20.  The layout of a line ends exactly at the end of the line, never
    past it (a pair is only taken when two characters are left), and looks
    up at most one key per character of the line. *)
Theorem renderLine_ends_at_end `{M : MathLib} `{N : NumberLib}
    (fontData : FontData.t) (config : TextRenderer.RenderConfig)
    (random : nat -> num) (text : string) (startX startY : num) :
  exists final,
    TextRenderer.renderLine_loop fontData config random (String.length text)
      text startY (TextRenderer.initial startX) = Some final
    /\ TextRenderer.LineState.i final = String.length text
    /\ (length (TextRenderer.LineState.lookups final)
        <= String.length text)%nat.
Proof.
  destruct (loop_returns fontData config random text startY (String.length text)
              (TextRenderer.initial startX)) as (final & Hloop & Hge);
    [simpl; lia|].
  exists final. split; [done|].
  assert (in_line text final) as [H1 H2].
  { apply (loop_invariant fontData config random (in_line text) text startY
             (iteration_in_line fontData config random text startY)
             (String.length text) (TextRenderer.initial startX) final);
      [|exact Hloop]. split; simpl; lia. }
  lia.
Qed.

(** X22.  On a document without characters nothing is drawn: for every
    line, [renderLine] returns empty markup, no random number is drawn, and
    every key looked up is recorded as missing. *)
Theorem renderLine_empty_document `{M : MathLib} `{N : NumberLib}
    (fontData : FontData.t) (config : TextRenderer.RenderConfig)
    (random : nat -> num) (text : string) (startX startY : num) :
  FontData.characters fontData = ∅ ->
  exists final,
    TextRenderer.renderLine_loop fontData config random (String.length text)
      text startY (TextRenderer.initial startX) = Some final
    /\ TextRenderer.renderLine fontData config random text startX startY
       = Some (TextRenderer.LineResult.mk EmptyString
                 (JS.sub (TextRenderer.LineState.xPosition final) startX),
               TextRenderer.warning (TextRenderer.LineState.missingChars final))
    /\ TextRenderer.LineState.draws final = 0%nat
    /\ TextRenderer.LineState.missingChars final
       = TextRenderer.LineState.lookups final.
Proof.
  intros Hempty.
  destruct (loop_returns fontData config random text startY (String.length text)
              (TextRenderer.initial startX)) as (final & Hloop & _);
    [simpl; lia|].
  exists final. split; [done|].
  assert (nothing_drawn final) as (Hsvg & Hdraws & _).
  { apply (loop_invariant fontData config random nothing_drawn text startY
             (fun st _ => iteration_nothing_drawn fontData config random
                            text startY st Hempty)
             (String.length text) (TextRenderer.initial startX) final);
      [done | exact Hloop]. }
  assert (missing_recorded fontData final) as Hmissing.
  { apply (loop_invariant fontData config random
             (missing_recorded fontData) text startY
             (fun st _ => iteration_missing_recorded fontData config random
                            text startY st)
             (String.length text) (TextRenderer.initial startX) final);
      [reflexivity | exact Hloop]. }
  split; [|split; [done|]].
  - unfold TextRenderer.renderLine. by rewrite Hloop, Hsvg.
  - rewrite Hmissing. apply forallb_filter_id, forallb_forall.
    intros k _. apply negb_true_iff, hasCharacter_false.
    rewrite Hempty. apply lookup_empty.
Qed.

Lemma renderLine_empty_document_witness :
  exists final,
    @TextRenderer.renderLine_loop ApproxMath.math ApproxMath.number emptyDoc
      sampleConfig ApproxMath.steady (String.length "a b") "a b" (Fin 90)
      (TextRenderer.initial (Fin 50)) = Some final
    /\ @TextRenderer.renderLine ApproxMath.math ApproxMath.number emptyDoc
         sampleConfig ApproxMath.steady "a b" (Fin 50) (Fin 90)
       = Some (TextRenderer.LineResult.mk EmptyString
                 (JS.sub (TextRenderer.LineState.xPosition final) (Fin 50)),
               TextRenderer.warning (TextRenderer.LineState.missingChars final))
    /\ TextRenderer.LineState.draws final = 0%nat
    /\ TextRenderer.LineState.missingChars final
       = TextRenderer.LineState.lookups final.
Proof.
  apply (@renderLine_empty_document ApproxMath.math ApproxMath.number emptyDoc).
  reflexivity.
Defined.

(** [getBaselineNorm] is the fallback 0.7 for a character without
    metrics or whose [emHeight] is missing, 0 or not a number; and for
    finite [baseline], [ascender] and [emHeight] it is a finite number: the
    division is never by zero. *)
Theorem getBaselineNorm_fallback (charData : Character.t) :
  (Character.metrics charData = None ->
   TextRenderer.getBaselineNorm charData = Fin 0.7)
  /\ (forall m,
        Character.metrics charData = Some m ->
        JS.truthy (JS.to_number (emHeight m)) = false ->
        TextRenderer.getBaselineNorm charData = Fin 0.7)
  /\ (forall m b a e,
        Character.metrics charData = Some m ->
        baseline m = Some (Fin b) -> ascender m = Some (Fin a) ->
        emHeight m = Some (Fin e) ->
        JS.finite (TextRenderer.getBaselineNorm charData)).
Proof.
  unfold TextRenderer.getBaselineNorm. split; [|split].
  - by intros ->.
  - intros m -> He. destruct (emHeight m) as [e|]; [|done].
    simpl in He. by rewrite He.
  - intros m b a e -> -> -> ->.
    unfold JS.truthy, JS.to_number, JS.nullish, JS.sub, JS.add, JS.neg, JS.div.
    by destruct (Qeq_bool e 0).
Qed.


(** ** Saving a drawn character *)

Section CaptureFacts.
Context {M : MathLib}.
Import Capture.

Lemma simplifyStrokes_thinned (fuel : nat) (strokes : list Stroke) :
  Forall (fun s => length (points s) <= fuel)%nat strokes ->
  exists simplified,
    simplifyStrokes fuel strokes = Some simplified
    /\ Forall2 thinned strokes simplified.
Proof.
  intros Hfuel. unfold simplifyStrokes.
  induction Hfuel as [|s strokes Hs _ (simplified & IH & Hall)].
  { by exists []. }
  assert (exists out,
            StrokeProcessor.simplifyStroke fuel (points s) (Fin 2) = Some out
            /\ thinned s (mkStroke out)) as (out & Hout & Hthin).
  { unfold StrokeProcessor.simplifyStroke.
    destruct (length (points s) <=? 2)%nat eqn:E.
    - exists (points s). split; [done|]. by repeat split.
    - apply Nat.leb_gt in E.
      destruct (simplify_returns fuel (points s) (Fin 2))
        as (out & Hout & _ & Hmin & Hhd & Hlast); [done|lia|done|].
      exists out. split; [done|]. repeat split; try done.
      by apply (simplify_sublist fuel _ _ (Fin 2)). }
  exists (mkStroke out :: simplified). split; [|by constructor].
  simpl. rewrite Hout. simpl. by rewrite IH.
Qed.

End CaptureFacts.

(** X23.  Saving a drawn character (fuel for the longest stroke) stores it
    under the current key with as many strokes as were drawn, each a
    subsequence of the drawn stroke with the same first and last point and,
    for a stroke of two points or more, two points at least; with nothing
    drawn, nothing is stored. *)
Theorem saveCurrentCharacter_stores `{M : MathLib}
    (fuel : nat) (fontData : FontStore.t) (currentChar : string)
    (currentStrokes : list Stroke) (canvasWidth canvasHeight : num)
    (stamp now : string) :
  Forall (fun s => length (points s) <= fuel)%nat currentStrokes ->
  match currentStrokes with
  | [] =>
      Capture.saveCurrentCharacter fuel fontData currentChar currentStrokes
        canvasWidth canvasHeight stamp now = Capture.NothingDrawn
  | _ =>
      exists fontData' charData,
        Capture.saveCurrentCharacter fuel fontData currentChar currentStrokes
          canvasWidth canvasHeight stamp now = Capture.Saved fontData'
        /\ FontData.getCharacter (FontStore.data fontData') currentChar
           = Some charData
        /\ Forall2 thinned currentStrokes (Character.strokes charData)
        /\ Character.bounds charData
           = StrokeProcessor.calculateBounds currentStrokes
        /\ Character.metrics charData
           = Some (Capture.captureMetrics canvasWidth canvasHeight)
  end.
Proof.
  intros Hfuel. destruct currentStrokes as [|s0 rest]; [done|].
  destruct (simplifyStrokes_thinned fuel (s0 :: rest) Hfuel)
    as (simplified & Hsimplified & Hthin).
  unfold Capture.saveCurrentCharacter. rewrite Hsimplified.
  eexists _, _. split; [reflexivity|]. split.
  { unfold FontStore.setCharacter, FontData.getCharacter.
    cbn [FontStore.data FontData.characters]. apply lookup_insert_eq. }
  by repeat split.
Qed.

Lemma saveCurrentCharacter_stores_witness :
  exists fontData' charData,
    @Capture.saveCurrentCharacter ApproxMath.math 4
      (FontStore.create "t0" "t0") "z" [mkStroke scenarioA]
      (Fin 450) (Fin 350) "t1" "t2" = Capture.Saved fontData'
    /\ FontData.getCharacter (FontStore.data fontData') "z" = Some charData
    /\ Forall2 thinned [mkStroke scenarioA] (Character.strokes charData)
    /\ Character.bounds charData
       = StrokeProcessor.calculateBounds [mkStroke scenarioA]
    /\ Character.metrics charData
       = Some (Capture.captureMetrics (Fin 450) (Fin 350)).
Proof.
  apply (@saveCurrentCharacter_stores ApproxMath.math 4
           (FontStore.create "t0" "t0") "z" [mkStroke scenarioA]).
  repeat constructor.
Defined.

(** X24.  For a character saved by the capture tool on a canvas of finite
    height other than 0, the renderer's baseline ratio is 3/4, whatever the
    height: the fallback 0.7 is not used. *)
Theorem captured_baseline_ratio (canvasWidth : num) (h : Q)
    (charData : Character.t) :
  ~ h == 0 ->
  Character.metrics charData
  = Some (Capture.captureMetrics canvasWidth (Fin h)) ->
  JS.same (TextRenderer.getBaselineNorm charData) (Fin (3 # 4)).
Proof.
  intros Hh Hm. unfold TextRenderer.getBaselineNorm. rewrite Hm.
  unfold Capture.captureMetrics, Capture.GUIDELINE_ascender,
    Capture.GUIDELINE_baseline, Capture.GUIDELINE_descender.
  cbn [emHeight baseline ascender JS.to_number JS.nullish JS.mul JS.sub
       JS.add JS.neg JS.truthy].
  assert (Qeq_bool ((0.82 + Qopp 0.18) * h) 0 = false) as E.
  { destruct (Qeq_bool _ 0) eqn:E; [|done]. apply Qeq_bool_eq in E.
    destruct Hh. lra. }
  rewrite E. cbn [negb JS.div]. rewrite E. simpl. field. lra.
Qed.

Lemma captured_baseline_ratio_witness :
  JS.same
    (TextRenderer.getBaselineNorm
       (Character.mk [] boundsB (Fin 0)
          (Some (Capture.captureMetrics (Fin 450) (Fin 350))) None
          EmptyString))
    (Fin (3 # 4)).
Proof.
  apply (captured_baseline_ratio (Fin 450) 350); [by compute | reflexivity].
Defined.

(** ** The distance to the chord *)

(** X25.  For finite points, [perpendicularDistance] is [Math.hypot] of the
    finite offsets from the point to a point of the chord segment,
    [lineStart + t (lineEnd - lineStart)] with [0 <= t <= 1]: the distance
    is to the segment, not to the whole line, and there is no division by
    zero, also for a chord of length 0. *)
Theorem perpendicularDistance_to_segment `{M : MathLib}
    (px py sx sy ex ey : Q) (pr ts pr1 ts1 pr2 ts2 : option num) :
  exists t a b,
    StrokeProcessor.perpendicularDistance
      (Point.mk (Fin px) (Fin py) pr ts)
      (Point.mk (Fin sx) (Fin sy) pr1 ts1)
      (Point.mk (Fin ex) (Fin ey) pr2 ts2)
    = Math_hypot (Fin a) (Fin b)
    /\ 0 <= t <= 1
    /\ a == px - (sx + t * (ex - sx))
    /\ b == py - (sy + t * (ey - sy)).
Proof.
  unfold StrokeProcessor.perpendicularDistance.
  cbn [Point.x Point.y JS.sub JS.add JS.neg JS.mul].
  unfold JS.eqb. cbn [JS.compare].
  destruct (Qcompare_spec (ex + - sx) 0) as [Hx|Hx|Hx];
    destruct (Qcompare_spec (ey + - sy) 0) as [Hy|Hy|Hy];
    cbn [andb];
    try (exists 0; do 2 eexists; split; [reflexivity|];
         split; [lra|]; split; nra).
  all: assert (Qeq_bool ((ex + - sx) * (ex + - sx) + (ey + - sy) * (ey + - sy)) 0
               = false) as Hden
         by (destruct (Qeq_bool _ 0) eqn:E; [|done];
             apply Qeq_bool_eq in E; exfalso; nra).
  all: cbn [JS.div]; rewrite Hden; unfold JS.lt, JS.gt; cbn [JS.compare].
  all: match goal with
       | |- context [?t ?= 0] =>
           destruct (Qcompare_spec t 0) as [H0|H0|H0];
           [ destruct (Qcompare_spec t 1) as [H1|H1|H1]; [| |exfalso; lra]
           | | destruct (Qcompare_spec t 1) as [H1|H1|H1] ];
           cbn [JS.add JS.mul JS.sub JS.neg]
       end.
  all: try (exists 0; do 2 eexists; split; [reflexivity|];
            split; [lra|]; split; ring).
  all: try (exists 1; do 2 eexists; split; [reflexivity|];
            split; [lra|]; split; ring).
  all: match goal with
       | H : 0 < ?t |- _ =>
           exists t; do 2 eexists; split; [reflexivity|];
           split; [lra|]; split; ring
       | H : ?t == 0 |- _ =>
           exists t; do 2 eexists; split; [reflexivity|];
           split; [lra|]; split; ring
       end.
Qed.

(** ** The metrics of a stroke *)

Section MetricsFacts.
Context {M : MathLib}.

Lemma segments_finite (rest : list Point.t) (prev : Point.t) (l : Q) :
  hypot_sound M ->
  finite_point prev ->
  Forall finite_point rest ->
  0 <= l ->
  exists l', StrokeProcessorRest.segments prev rest (Fin l) = Fin l'
             /\ l <= l'.
Proof.
  intros Hh. revert prev l.
  induction rest as [|curr rest IH]; intros prev l Hp Hr Hl; simpl.
  - exists l. split; [done|lra].
  - apply Forall_cons in Hr as [Hc Hr].
    destruct Hp as [Hpx Hpy], Hc as [Hcx Hcy].
    destruct (Point.x prev) as [| |px|] eqn:Epx; try done.
    destruct (Point.y prev) as [| |py|] eqn:Epy; try done.
    destruct (Point.x curr) as [| |cx|] eqn:Ecx; try done.
    destruct (Point.y curr) as [| |cy|] eqn:Ecy; try done.
    cbn [JS.sub JS.add JS.neg].
    destruct (Hh (cx + - px) (cy + - py)) as (r & -> & Hr0).
    cbn [JS.add].
    destruct (IH curr (l + r)) as (l' & -> & Hl').
    + split; [by rewrite Ecx | by rewrite Ecy].
    + done.
    + lra.
    + exists l'. split; [done|lra].
Qed.

End MetricsFacts.

(** X26.  With [Math.hypot] finite and not negative on finite numbers, the
    metrics of a stroke of points with finite coordinates and time stamps
    are three finite numbers: the length and the average speed are not
    negative, the speed times a positive duration is the length, and the
    speed is 0 when the duration is not positive (no division by zero). *)
Theorem calculateMetrics_sound `{M : MathLib} (stroke : Stroke)
    (Hhypot : hypot_sound M)
    (Htimed : Forall timed (points stroke)) :
  exists l d s,
    StrokeProcessorRest.calculateMetrics stroke
    = StrokeProcessorRest.mkStrokeMetrics (Fin l) (Fin d) (Fin s)
    /\ 0 <= l /\ 0 <= s
    /\ (0 < d -> s * d == l)
    /\ (d <= 0 -> s == 0).
Proof.
  unfold StrokeProcessorRest.calculateMetrics.
  destruct (points stroke) as [|first [|second rest]] eqn:E.
  - exists 0, 0, 0. repeat split; lra.
  - exists 0, 0, 0. repeat split; lra.
  - assert (Forall finite_point (second :: rest)) as Hfin.
    { apply Forall_cons in Htimed as [_ Ht].
      eapply Forall_impl; [exact Ht|]. by intros p [Hp _]. }
    assert (exists tl, last (first :: second :: rest) ≫= Point.timestamp
                       = Some (Fin tl)) as [tl Etl].
    { destruct (last (first :: second :: rest)) as [lp|] eqn:El.
      - apply last_Some_elem_of in El.
        rewrite Forall_forall in Htimed.
        destruct (Htimed lp El) as [_ [t Ht]]. exists t. by rewrite <- Ht.
      - by apply last_None in El. }
    apply Forall_cons in Htimed as [[Hf [tf Etf]] _].
    destruct (segments_finite (second :: rest) first 0 Hhypot Hf Hfin)
      as (l & El & Hl); [lra|].
    rewrite El, Etl, Etf.
    unfold JS.to_number, JS.nullish. cbn [JS.sub JS.add JS.neg].
    unfold JS.gt. cbn [JS.compare].
    destruct (Qcompare_spec (tl + - tf) 0) as [H0|H0|H0].
    + exists l, (tl + - tf), 0. repeat split; lra.
    + exists l, (tl + - tf), 0. repeat split; lra.
    + cbn [JS.div].
      assert (Qeq_bool (tl + - tf) 0 = false) as ->.
      { destruct (Qeq_bool _ 0) eqn:Eq; [|done].
        apply Qeq_bool_eq in Eq. lra. }
      exists l, (tl + - tf), (l / (tl + - tf)).
      split; [done|]. split; [lra|]. split.
      * apply Qle_shift_div_l; lra.
      * split; [|lra]. intros _. field. lra.
Qed.

Lemma ApproxMath_hypot_sound : hypot_sound ApproxMath.math.
Proof.
  intros a b. eexists. split; [reflexivity|].
  rewrite Qred_correct. unfold ApproxMath.Qsqrt, Qle. simpl.
  match goal with |- context [Z.sqrt ?z] => pose proof (Z.sqrt_nonneg z) end.
  lia.
Qed.

Lemma calculateMetrics_sound_witness :
  exists l d s,
    @StrokeProcessorRest.calculateMetrics ApproxMath.math
      (mkStroke [Point.mk (Fin 0) (Fin 0) (Some (Fin 0.5)) (Some (Fin 10));
                 Point.mk (Fin 3) (Fin 4) (Some (Fin 0.5)) (Some (Fin 20))])
    = StrokeProcessorRest.mkStrokeMetrics (Fin l) (Fin d) (Fin s)
    /\ 0 <= l /\ 0 <= s
    /\ (0 < d -> s * d == l)
    /\ (d <= 0 -> s == 0).
Proof.
  apply (@calculateMetrics_sound ApproxMath.math).
  - exact ApproxMath_hypot_sound.
  - repeat constructor; by eexists.
Defined.

(** ** The whole text *)

Section DocumentFacts.
Context {M : MathLib} {N : NumberLib} {P : NumberPrinter} {E : ParseErrors}.
Variable config : TextRenderer.RenderConfig.
Import TextDocument.

Lemma split_lines_nonempty (text : string) :
  (1 <= length (split_lines text))%nat.
Proof.
  induction text as [|c rest IH]; simpl; [lia|].
  destruct (Ascii.eqb c _); simpl; [lia|].
  destruct (split_lines rest); simpl; lia.
Qed.

(** On a document of well-formed records, a turn of the loop is the turn
    of the line layout on those records. *)
Lemma iteration_agrees (fontData : FontData.t) (random : nat -> num)
    (text : string) (startY : num) (st : TextRenderer.LineState.t) :
  renderLine_iteration config (WellFormed <$> FontData.characters fontData)
    random text startY st
  = Next (TextRenderer.renderLine_iteration fontData config random text
            startY st).
Proof.
  assert (forall i,
            usePair (WellFormed <$> FontData.characters fontData) text i
            = TextRenderer.usePair fontData text i) as Hpair.
  { intros i. unfold usePair, TextRenderer.usePair, hasCharacter,
      FontData.hasCharacter. f_equal. apply bool_decide_ext.
    by rewrite lookup_fmap, fmap_is_Some. }
  destruct st as [i x svg missing prev draws lookups].
  unfold renderLine_iteration, TextRenderer.renderLine_iteration,
    glyphKey, step, TextRenderer.glyphKey, TextRenderer.step,
    FontData.getCharacter.
  rewrite Hpair.
  destruct (String.eqb _ " "); [done|].
  rewrite lookup_fmap.
  destruct (FontData.characters fontData !! _) as [charData|];
    cbn [fmap option_fmap option_map]; [|done].
  by destruct (TextRenderer.placeGlyph _ _ _ _ _) as [[? ?] ?].
Qed.

Lemma document_step_positive (doc : Document) (text : string) (i : nat) :
  (1 <= step doc text i <= 2)%nat.
Proof. unfold step. destruct (usePair _ _ _); lia. Qed.

(** A turn that goes on moves the index by [step]; a turn that throws has
    met a value without strokes. *)
Lemma document_iteration (doc : Document) (random : nat -> num)
    (text : string) (startY : num) (st : TextRenderer.LineState.t) :
  match renderLine_iteration config doc random text startY st with
  | Next st' =>
      TextRenderer.LineState.i st'
      = (TextRenderer.LineState.i st
         + step doc text (TextRenderer.LineState.i st))%nat
  | Throws => exists key, doc !! key = Some NoStrokes
  end.
Proof.
  destruct st as [i x svg missing prev draws lookups].
  unfold renderLine_iteration. cbn [TextRenderer.LineState.i].
  destruct (String.eqb _ _); [done|].
  destruct (doc !! glyphKey doc text i) as [[charData|]|] eqn:Hkey; [| |done].
  - by destruct (TextRenderer.placeGlyph _ _ _ _ _) as [[? ?] ?].
  - by eexists.
Qed.

(** The loop ends on fuel for the characters left, and throws only on a
    value without strokes. *)
Lemma document_loop_ends (doc : Document) (random : nat -> num)
    (text : string) (startY : num) (fuel : nat) :
  forall st,
    (String.length text - TextRenderer.LineState.i st <= fuel)%nat ->
    exists turn,
      renderLine_loop config fuel doc random text startY st = Some turn
      /\ (turn = Throws -> exists key, doc !! key = Some NoStrokes).
Proof.
  induction fuel as [|fuel IH]; intros st Hfuel; simpl.
  - destruct (TextRenderer.LineState.i st <? String.length text)%nat eqn:Hi.
    + apply Nat.ltb_lt in Hi. lia.
    + by eexists.
  - destruct (TextRenderer.LineState.i st <? String.length text)%nat eqn:Hi;
      [|by eexists].
    pose proof (document_iteration doc random text startY st) as Hturn.
    destruct (renderLine_iteration config doc random text startY st)
      as [st'|].
    + apply IH. rewrite Hturn.
      pose proof (document_step_positive doc text (TextRenderer.LineState.i st)).
      lia.
    + by eexists.
Qed.

(** The lines end: all are done, with one warning each at most, or one
    throws, on a value without strokes, before the last warning. *)
Lemma renderLines_ends (doc : Document) (random : nat -> num)
    (lineHeightPx : num) (lines : list string) :
  forall st,
    exists result,
      renderLines config doc random lineHeightPx lines st = Some result
      /\ match result with
         | Done st' =>
             (length (warnings st') <= length (warnings st) + length lines)%nat
         | Broke warned =>
             (exists key, doc !! key = Some NoStrokes)
             /\ (length warned < length (warnings st) + length lines)%nat
         end.
Proof.
  induction lines as [|line rest IH]; intros st; simpl.
  - exists (Done st). split; [done|lia].
  - unfold renderLine.
    destruct (document_loop_ends doc
                (fun n => random (used st + n)%nat) line (yPosition st)
                (String.length line) (TextRenderer.initial (Fin 50)))
      as ([final|] & -> & Hthrows); [simpl; lia| |].
    + match goal with
      | |- context [renderLines _ _ _ _ rest ?s] =>
          destruct (IH s) as (result & -> & Hresult)
      end.
      exists result. split; [done|].
      assert (length (option_list
                        (TextRenderer.warning
                           (TextRenderer.LineState.missingChars final)))
              <= 1)%nat as Hone
        by (destruct (TextRenderer.warning _); simpl; lia).
      destruct result as [st'|warned]; simpl in Hresult;
        rewrite length_app in Hresult.
      * lia.
      * destruct Hresult as [Hkey Hlen]. split; [done|lia].
    + eexists. split; [reflexivity|]. split; [by apply Hthrows|lia].
Qed.

End DocumentFacts.

(** X27.  On a font whose stored values are records of captured characters
    or values without strokes, [renderText] always ends, in one of four
    ways: on an empty text it alerts that some text is to be entered; on a
    text with no font object, or with a font of no key, that data is to be
    loaded; it alerts the error that the generation threw, which happens
    only on a font with a value without strokes; or it displays the
    document.  The error is met: a text of one character, no space and no
    line feed, whose key holds a value without strokes, ends in the error
    alert. *)
Theorem renderText_outcome `{M : MathLib} `{N : NumberLib} `{P : NumberPrinter}
    `{E : ParseErrors}
    (config : TextRenderer.RenderConfig) (random : nat -> num)
    (fontData : option TextDocument.Document) (now text : string) :
  (exists outcome,
     TextDocument.renderText config fontData random now text = Some outcome
     /\ match outcome with
        | TextDocument.Alerted message =>
            (text = EmptyString
             /\ message = "Please enter some text to render."%string)
            \/ (text <> EmptyString
                /\ message = "Please load handwriting data first."%string
                /\ (fontData = None \/ fontData = Some ∅))
        | TextDocument.Displayed _ _ =>
            text <> EmptyString
            /\ exists doc, fontData = Some doc /\ doc <> ∅
        | TextDocument.Failed message _ =>
            text <> EmptyString
            /\ message
               = ("Error rendering text: " +:+ parse_undefined_message)%string
            /\ exists doc key,
                 fontData = Some doc
                 /\ doc !! key = Some TextDocument.NoStrokes
        end)
  /\ (forall doc c,
        fontData = Some doc ->
        text = String c EmptyString ->
        c <> Ascii.ascii_of_nat 32 -> c <> Ascii.ascii_of_nat 10 ->
        doc !! text = Some TextDocument.NoStrokes ->
        TextDocument.renderText config fontData random now text
        = Some (TextDocument.Failed
                  ("Error rendering text: " +:+ parse_undefined_message) [])).
Proof.
  split.
  - unfold TextDocument.renderText.
    destruct (String.eqb text EmptyString) eqn:Et.
    { apply String.eqb_eq in Et. eexists. split; [reflexivity|]. by left. }
    apply String.eqb_neq in Et.
    destruct fontData as [doc|];
      [|eexists; split; [reflexivity|]; right; repeat split; try done;
        by left].
    destruct (size doc =? 0)%nat eqn:Ec.
    { apply Nat.eqb_eq, map_size_empty_iff in Ec. subst doc.
      eexists. split; [reflexivity|]. right. repeat split; try done.
      by right. }
    apply Nat.eqb_neq in Ec.
    assert (doc <> ∅) as Hdoc
      by (intros ->; apply Ec; apply map_size_empty).
    unfold TextDocument.generateTextSVG. cbv zeta.
    match goal with
    | |- context [TextDocument.renderLines _ ?d ?r ?h ?l ?s] =>
        destruct (renderLines_ends config d r h l s)
          as ([st'|warned] & -> & Hresult)
    end.
    + eexists. split; [reflexivity|]. split; [done|]. by exists doc.
    + destruct Hresult as [[key Hkey] _].
      eexists. split; [reflexivity|]. split; [done|]. split; [done|].
      by exists doc, key.
  - intros doc c -> -> Hspace Hfeed Hkey.
    unfold TextDocument.renderText.
    change (String.eqb (String c EmptyString) EmptyString) with false.
    cbv iota.
    assert ((size doc =? 0)%nat = false) as ->.
    { apply Nat.eqb_neq. intros Hsize.
      apply map_size_empty_iff in Hsize. subst doc.
      by rewrite lookup_empty in Hkey. }
    unfold TextDocument.generateTextSVG. cbv zeta.
    assert (TextDocument.split_lines (String c EmptyString)
            = [String c EmptyString]) as ->.
    { simpl. by rewrite (proj2 (Ascii.eqb_neq _ _) Hfeed). }
    assert (forall rnd startY,
              TextDocument.renderLine config doc rnd (String c EmptyString)
                (Fin 50) startY
              = Some TextDocument.LineThrew) as Hline.
    { intros rnd startY.
      unfold TextDocument.renderLine, TextRenderer.initial.
      cbn [String.length TextDocument.renderLine_loop
           TextRenderer.LineState.i Nat.ltb Nat.leb].
      unfold TextDocument.renderLine_iteration. cbv beta iota zeta.
      change (TextDocument.glyphKey doc (String c EmptyString) 0)
        with (String c EmptyString).
      assert (String.eqb (String c EmptyString) " " = false) as ->.
      { apply String.eqb_neq. intros [= ->]. by apply Hspace. }
      by rewrite Hkey. }
    cbn [TextDocument.renderLines]. rewrite Hline. reflexivity.
Qed.

(** X28.  On a document whose stored values are records of captured
    characters or values without strokes, [generateTextSVG] ends for every
    text: it returns the document, the lines having written at most one
    warning each to the console, or it throws, which happens only on a
    document with a value without strokes and before the last line has
    written its warning.  A text has one line at least. *)
Theorem generateTextSVG_returns `{M : MathLib} `{N : NumberLib}
    `{P : NumberPrinter}
    (config : TextRenderer.RenderConfig) (random : nat -> num)
    (doc : TextDocument.Document) (now text : string) :
  exists result,
    TextDocument.generateTextSVG config doc random now text = Some result
    /\ match result with
       | TextDocument.Returned _ warned =>
           (length warned <= length (TextDocument.split_lines text))%nat
       | TextDocument.Threw warned =>
           (exists key, doc !! key = Some TextDocument.NoStrokes)
           /\ (length warned < length (TextDocument.split_lines text))%nat
       end
    /\ (1 <= length (TextDocument.split_lines text))%nat.
Proof.
  unfold TextDocument.generateTextSVG. cbv zeta.
  match goal with
  | |- context [TextDocument.renderLines _ ?d ?r ?h ?l ?s] =>
      destruct (renderLines_ends config d r h l s)
        as ([st'|warned] & -> & Hresult)
  end.
  - eexists. split; [reflexivity|].
    split; [simpl in Hresult; lia | apply split_lines_nonempty].
  - eexists. split; [reflexivity|].
    split; [|apply split_lines_nonempty].
    destruct Hresult as [Hkey Hlen]. split; [done|]. simpl in Hlen. lia.
Qed.
